(** * inventory_from_images.py: a shallow embedding and its verified properties

    The script walks an input folder, collects the image files, renders a
    thumbnail for each and writes one spreadsheet row per collected path.
    This development embeds [main] of [inventory_from_images.py] as a pure
    function from a [world] (file system, clock, operating-system verdicts)
    and the parsed command line to an [outcome] (console output, exit
    status, file-system effects).

    Conventions:
    - a [Path] is pathlib's [parts] tuple: the list of path components,
      with the anchor ["/"] as first component of an absolute path;
    - a [string] is the UTF-8 byte string of a Python [str]; comparing byte
      strings orders them as Python orders the code points;
    - rational numbers stand for Python's floats ([0.75 * thumb_size] and
      the aspect-ratio arithmetic of the thumbnail). *)

From Stdlib Require Import ZArith QArith Qround Qabs Qminmax Lqa.
From Stdlib Require Import Ascii String Sorted Permutation Lia.
From stdpp Require Import base option list sorting gmap strings.

Local Open Scope string_scope.
Local Open Scope list_scope.
Local Open Scope Z_scope.

(** ** Strings *)

Module Str.

(** [str.rfind(c)]: the index of the last occurrence, [-1] when absent. *)
Fixpoint rfind (c : ascii) (s : string) : Z :=
  match s with
  | EmptyString => -1
  | String a s' =>
      let i := rfind c s' in
      if 0 <=? i then i + 1
      else if Ascii.eqb a c then 0 else -1
  end.

Definition len (s : string) : Z := Z.of_nat (String.length s).

(** The slices [s[:i]] and [s[i:]] for [0 <= i]. *)
Fixpoint take (n : nat) (s : string) : string :=
  match n, s with
  | S n', String a s' => String a (take n' s')
  | _, _ => EmptyString
  end.

Fixpoint drop (n : nat) (s : string) : string :=
  match n, s with
  | S n', String _ s' => drop n' s'
  | _, _ => s
  end.

(** [str.lower()] on the ASCII letters; the bytes of other characters
    are left alone (none of them lower-cases to an ASCII letter of the
    supported extensions). *)
Definition lower_char (c : ascii) : ascii :=
  let n := N_of_ascii c in
  if ((65 <=? n) && (n <=? 90))%N then ascii_of_N (n + 32) else c.

Fixpoint lower (s : string) : string :=
  match s with
  | EmptyString => EmptyString
  | String a s' => String (lower_char a) (lower s')
  end.

(** [sep.join(parts)]. *)
Fixpoint join (sep : string) (l : list string) : string :=
  match l with
  | [] => ""
  | [x] => x
  | x :: l' => x +:+ sep +:+ join sep l'
  end.

(** Decimal rendering of a natural number, as [str(n)] and [%d]. *)
Definition digit (n : nat) : ascii := ascii_of_nat (48 + n mod 10).

Fixpoint decimal_aux (fuel n : nat) (acc : string) : string :=
  match fuel with
  | O => acc
  | S fuel' =>
      let acc' := String (digit n) acc in
      if (n <? 10)%nat then acc' else decimal_aux fuel' (n / 10) acc'
  end.

Definition decimal (n : nat) : string := decimal_aux (S n) n "".

(** Two digits, zero padded: [%m], [%d], [%H], [%M], [%S]. *)
Definition pad2 (n : nat) : string :=
  String (digit (n / 10)) (String (digit n) "").

End Str.

(** ** pathlib.PurePath *)

Module PurePath.

Definition Path := list string.

(** [p / name]. *)
Definition joinpath (p : Path) (name : string) : Path := p ++ [name].

(** [p.name]: the final component, empty for [Path(".")] and for the
    bare anchor. *)
Definition name (p : Path) : string :=
  if bool_decide (p = ["/"]) then "" else List.last p "".

(** [p.suffix]: [name[i:]] where [i = name.rfind(".")], provided
    [0 < i < len(name) - 1]; empty otherwise. *)
Definition suffix_of (nm : string) : string :=
  let i := Str.rfind "." nm in
  if (0 <? i) && (i <? Str.len nm - 1) then Str.drop (Z.to_nat i) nm else "".

Definition suffix (p : Path) : string := suffix_of (name p).

(** [p.stem]: [name[:i]] under the same condition, else the whole name. *)
Definition stem_of (nm : string) : string :=
  let i := Str.rfind "." nm in
  if (0 <? i) && (i <? Str.len nm - 1) then Str.take (Z.to_nat i) nm else nm.

Definition stem (p : Path) : string := stem_of (name p).

(** [p.parent]: drops the final component; the anchor and [Path(".")]
    are their own parents. *)
Definition parent (p : Path) : Path :=
  if bool_decide (p = ["/"]) then p else removelast p.

(** [p.with_name(n)] raises [ValueError] when [p] has an empty name. *)
Definition with_name (p : Path) (n : string) : option Path :=
  if String.eqb (name p) "" then None else Some (removelast p ++ [n]).

(** [str(p)]. *)
Definition str (p : Path) : string :=
  match p with
  | [] => "."
  | a :: rest =>
      if bool_decide (a = "/") then "/" +:+ Str.join "/" rest
      else Str.join "/" p
  end.

(** Ordering of paths: Python compares the parts sequences, component
    by component, each component as a string. *)
Fixpoint compare (p q : Path) : comparison :=
  match p, q with
  | [], [] => Eq
  | [], _ :: _ => Lt
  | _ :: _, [] => Gt
  | a :: p', b :: q' =>
      match String.compare a b with
      | Eq => compare p' q'
      | c => c
      end
  end.

Definition ltb (p q : Path) : bool :=
  match compare p q with Lt => true | _ => false end.

Definition le (p q : Path) : Prop := compare p q <> Gt.

End PurePath.

Import PurePath.

(** ** [sorted]: a stable sort that only asks [<], as [list.sort] does *)

Fixpoint insert_sorted (x : Path) (l : list Path) : list Path :=
  match l with
  | [] => [x]
  | y :: l' => if PurePath.ltb y x then y :: insert_sorted x l' else x :: l
  end.

Fixpoint sorted (l : list Path) : list Path :=
  match l with
  | [] => []
  | x :: l' => insert_sorted x (sorted l')
  end.

(** ** The file system, as the script observes it *)

Module FS.

(** What the image decoder makes of a regular file's bytes: a picture
    of [width] by [height] pixels that opens, converts to RGBA and
    re-encodes to PNG, or anything on which one of these steps raises. *)
Inductive content :=
  | Picture (width height : Z)
  | Garbage.

#[local] Set Warnings "-register-all".

(** A directory lists its entries in the order the operating system
    enumerates them. *)
Inductive node :=
  | File (c : content)
  | Dir (entries : list (string * node)).

Definition find_entry (nm : string) (es : list (string * node)) : option node :=
  snd <$> List.find (λ e, String.eqb nm (fst e)) es.

Fixpoint walk (n : node) (p : list string) : option node :=
  match p with
  | [] => Some n
  | nm :: p' =>
      match n with
      | File _ => None
      | Dir es =>
          match find_entry nm es with
          | Some c => walk c p'
          | None => None
          end
      end
  end.

(** [rglob("*")] below a directory: the directory's own entries, then
    the same for each sub-directory in turn; files and directories
    alike, the starting directory itself excluded. *)
Fixpoint rglob_node (p : Path) (n : node) : list Path :=
  match n with
  | File _ => []
  | Dir es =>
      map (λ e, joinpath p (fst e)) es ++
      flat_map (λ '(nm, c), rglob_node (joinpath p nm) c) es
  end.

Definition iterdir_node (p : Path) (n : node) : list Path :=
  match n with
  | File _ => []
  | Dir es => map (λ e, joinpath p (fst e)) es
  end.

End FS.

Import FS.

(** ** The world a run executes in *)

Record datetime := {
  year : nat; month : nat; day : nat;
  hour : nat; minute : nat; second : nat
}.

(** [strftime("%Y%m%d_%H%M%S")]. The year is printed in plain decimal,
    which is four digits from the year 1000 on. *)
Definition strftime (t : datetime) : string :=
  Str.decimal (year t) +:+ Str.pad2 (month t) +:+ Str.pad2 (day t) +:+ "_" +:+
  Str.pad2 (hour t) +:+ Str.pad2 (minute t) +:+ Str.pad2 (second t).

Record world := {
  root : node;                  (* the tree below "/" *)
  cwd : list string;            (* the working directory, below "/" *)
  now : datetime;               (* what [datetime.now()] returns *)
  pillow_installed : bool;
  openpyxl_installed : bool;
  can_mkdir : Path → bool;      (* [mkdir(parents=True, exist_ok=True)] succeeds *)
  can_save : Path → bool        (* [wb.save(path)] succeeds *)
}.

Definition is_absolute (p : Path) : bool :=
  match p with
  | a :: _ => bool_decide (a = "/")
  | [] => false
  end.

Definition lookup_path (w : world) (p : Path) : option node :=
  if is_absolute p then walk (root w) (tail p)
  else walk (root w) (cwd w ++ p).

Definition exists_ (w : world) (p : Path) : bool :=
  bool_decide (is_Some (lookup_path w p)).

Definition is_dir (w : world) (p : Path) : bool :=
  match lookup_path w p with Some (Dir _) => true | _ => false end.

Definition is_file (w : world) (p : Path) : bool :=
  match lookup_path w p with Some (File _) => true | _ => false end.

Definition iterdir (w : world) (p : Path) : list Path :=
  match lookup_path w p with Some n => iterdir_node p n | None => [] end.

Definition rglob (w : world) (p : Path) : list Path :=
  match lookup_path w p with Some n => rglob_node p n | None => [] end.

(** [p.resolve()], for a path without [..] components or symbolic links. *)
Definition resolve (w : world) (p : Path) : Path :=
  if is_absolute p then p else "/" :: cwd w ++ p.

(** ** The collector (lines 24 and 69-72) *)

Definition SUPPORTED_EXTS : gset string := {[ ".jpg"; ".jpeg"; ".png"; ".webp" ]}.

Definition supported (p : Path) : Prop := Str.lower (suffix p) ∈ SUPPORTED_EXTS.

Definition collect (w : world) (input_path : Path) (recursive : bool) : list Path :=
  if recursive then
    sorted (filter supported (rglob w input_path))
  else
    sorted (filter (λ p, is_file w p = true ∧ supported p) (iterdir w input_path)).

(** ** Pillow: the size arithmetic of [Image.thumbnail]

    [im.thumbnail((thumb_size, thumb_size))] (line 99) is a library call;
    the definitions of this module follow Pillow's [Image.thumbnail]
    (Pillow 7 and later) and its inner [preserve_aspect_ratio] and
    [round_aspect], with exact rationals where Pillow computes in floats. [None] stands for a raised
    exception ([ZeroDivisionError], or [ValueError] from [resize]). *)

Module PIL.

Definition size := (Z * Z)%type.

(** [max(min(math.floor(number), math.ceil(number), key=key), 1)];
    [min] keeps its first argument on a tie. *)
Definition round_aspect (number : Q) (key : Z → Q) : Z :=
  let lo := Qfloor number in
  let hi := Qceiling number in
  Z.max (if Qle_bool (key lo) (key hi) then lo else hi) 1.

Definition preserve_aspect_ratio (im box : size) : option (option size) :=
  let '(width, height) := im in
  let '(x, y) := box in
  if (width <=? x) && (height <=? y) then Some None
  else if height =? 0 then None
  else
    let aspect := (inject_Z width / inject_Z height)%Q in
    if y =? 0 then None
    else if Qle_bool aspect (inject_Z x / inject_Z y) then
      Some (Some (round_aspect (inject_Z y * aspect)
                    (λ n, Qabs (aspect - inject_Z n / inject_Z y))%Q, y))
    else if Qeq_bool aspect 0 then None
    else
      Some (Some (x, round_aspect (inject_Z x / aspect)
                       (λ n, if n =? 0 then 0 else Qabs (aspect - inject_Z x / inject_Z n))%Q)).

(** The size of the image after [thumbnail(box)]. *)
Definition thumbnail (im box : size) : option size :=
  match preserve_aspect_ratio im box with
  | None => None
  | Some None => Some im
  | Some (Some final_size) =>
      if bool_decide (im = final_size) then Some im
      else if (fst final_size <? 1) || (snd final_size <? 1) then None
      else Some final_size
  end.

End PIL.

(** ** openpyxl: the worksheet

    A cell address such as [f"B{row}"] is the coordinate pair
    [(row, 2)], which is how openpyxl keys its cells. Assigning a cell,
    a row height or an image is total. *)

Module XL.

Record worksheet := {
  title : string;
  cells : gmap (Z * Z) string;
  freeze_panes : option (Z * Z);
  column_width : gmap Z Z;
  row_height : gmap Z Q;
  images : list (PIL.size * (Z * Z))    (* embedded picture and its anchor *)
  }.

Definition Workbook_active : worksheet :=
  {| title := "Sheet"; cells := ∅; freeze_panes := None;
     column_width := ∅; row_height := ∅; images := [] |}.

Definition set_title (ws : worksheet) (t : string) : worksheet :=
  {| title := t; cells := cells ws; freeze_panes := freeze_panes ws;
     column_width := column_width ws; row_height := row_height ws;
     images := images ws |}.

Definition set_cell (ws : worksheet) (at_ : Z * Z) (v : string) : worksheet :=
  {| title := title ws; cells := <[at_ := v]> (cells ws);
     freeze_panes := freeze_panes ws; column_width := column_width ws;
     row_height := row_height ws; images := images ws |}.

Definition set_freeze_panes (ws : worksheet) (at_ : Z * Z) : worksheet :=
  {| title := title ws; cells := cells ws; freeze_panes := Some at_;
     column_width := column_width ws; row_height := row_height ws;
     images := images ws |}.

Definition set_column_width (ws : worksheet) (col : Z) (wd : Z) : worksheet :=
  {| title := title ws; cells := cells ws; freeze_panes := freeze_panes ws;
     column_width := <[col := wd]> (column_width ws);
     row_height := row_height ws; images := images ws |}.

Definition set_row_height (ws : worksheet) (row : Z) (h : Q) : worksheet :=
  {| title := title ws; cells := cells ws; freeze_panes := freeze_panes ws;
     column_width := column_width ws;
     row_height := <[row := h]> (row_height ws); images := images ws |}.

Definition add_image (ws : worksheet) (img : PIL.size) (at_ : Z * Z) : worksheet :=
  {| title := title ws; cells := cells ws; freeze_panes := freeze_panes ws;
     column_width := column_width ws; row_height := row_height ws;
     images := images ws ++ [(img, at_)] |}.

Definition A (row : Z) : Z * Z := (row, 1).
Definition B (row : Z) : Z * Z := (row, 2).

End XL.

Import XL.

(** ** [main] *)

Record args := {
  input : Path;          (* [Path(args.input)] *)
  output : Path;         (* [Path(args.output)] *)
  thumb_size : Z;
  timestamped : bool;
  recursive : bool
}.

Inductive termination :=
| Exit (code : Z)
| Uncaught (exception : string).

(** The exit status of the process; an uncaught exception ends it with 1. *)
Definition exit_status (t : termination) : Z :=
  match t with Exit c => c | Uncaught _ => 1 end.

Inductive effect :=
| Mkdir (p : Path)
| Save (p : Path) (ws : worksheet).

Record outcome := {
  stdout : list string;
  stderr : list string;     (* the lines the script itself prints *)
  status : termination;
  effects : list effect
}.

(** Lines 96-107: open, convert, thumbnail, encode. [Some sz] is the
    thumbnail handed to the worksheet, [None] an exception. *)
Definition render (w : world) (ts : Z) (fp : Path) : option PIL.size :=
  match lookup_path w fp with
  | Some (File (Picture width height)) => PIL.thumbnail (width, height) (ts, ts)
  | _ => None
  end.

(** [max(80, thumb_size * 0.75)]: [max] keeps its first argument unless
    the second is greater. *)
Definition row_height_for (ts : Z) : Q :=
  let h := (inject_Z ts * 0.75)%Q in
  if Qle_bool h 80 then 80%Q else h.

(** One iteration of the loop of lines 94-121 on worksheet [ws] at [row]. *)
Definition loop_body (w : world) (ts : Z) (st : worksheet * Z) (fp : Path)
  : worksheet * Z :=
  let '(ws, row) := st in
  match render w ts fp with
  | Some thumb =>
      let ws := set_row_height ws row (row_height_for ts) in
      let ws := add_image ws thumb (A row) in
      let ws := set_cell ws (B row) (stem fp) in
      (ws, row + 1)
  | None =>
      let ws := set_cell ws (B row) ("[ERROR reading image] " +:+ name fp) in
      (ws, row + 1)
  end.

(** Lines 78-88. *)
Definition prepare_workbook : worksheet :=
  let ws := Workbook_active in
  let ws := set_title ws "Inventory" in
  let ws := set_cell ws (A 1) "Photo" in
  let ws := set_cell ws (B 1) "Temporary Name" in
  let ws := set_freeze_panes ws (A 2) in
  let ws := set_column_width ws 1 18 in
  let ws := set_column_width ws 2 40 in
  ws.

Definition fill (w : world) (ts : Z) (files : list Path) : worksheet * Z :=
  fold_left (loop_body w ts) files (prepare_workbook, 2).

(** Lines 124-127; [None] is the [ValueError] of [with_name]. *)
Definition resolve_output (w : world) (a : args) : option Path :=
  let out_path := output a in
  if timestamped a then
    let ts := strftime (now w) in
    with_name out_path (stem out_path +:+ "_" +:+ ts +:+ suffix out_path)
  else Some out_path.

Definition failed (err : list string) (exc : string) (eff : list effect) : outcome :=
  {| stdout := []; stderr := err; status := Uncaught exc; effects := eff |}.

Definition main (w : world) (a : args) : outcome :=
  if negb (pillow_installed w) then
    failed ["ERROR: Pillow is not installed. Install with: pip install Pillow"]
      "ImportError" []
  else if negb (openpyxl_installed w) then
    failed ["ERROR: openpyxl is not installed. Install with: pip install openpyxl"]
      "ImportError" []
  else
    let input_path := input a in
    if negb (exists_ w input_path) || negb (is_dir w input_path) then
      {| stdout := [];
         stderr := ["ERROR: Input folder not found or not a directory: "
                      +:+ str input_path];
         status := Exit 1;
         effects := [] |}
    else
      let files := collect w input_path (recursive a) in
      let err :=
        match files with
        | [] => ["WARNING: No supported image files found in: " +:+ str input_path]
        | _ => []
        end in
      let ws := fst (fill w (thumb_size a) files) in
      match resolve_output w a with
      | None => failed err "ValueError" []
      | Some out_path =>
          let missing := negb (exists_ w (parent out_path)) in
          if missing && negb (can_mkdir w (parent out_path)) then
            failed err "OSError" []
          else
            let made := if missing then [Mkdir (parent out_path)] else [] in
            if can_save w out_path then
              {| stdout := ["Excel created: " +:+ str (resolve w out_path);
                            "Images processed: "
                              +:+ Str.decimal (length files)];
                 stderr := err;
                 status := Exit 0;
                 effects := made ++ [Save out_path ws] |}
            else failed err "OSError" made
      end.

(** ** Vocabulary for the statements about the row loop and [main] *)

(** The text the loop writes in column B for [fp]. *)
Definition row_text (w : world) (ts : Z) (fp : Path) : string :=
  match render w ts fp with
  | Some _ => stem fp
  | None => "[ERROR reading image] " +:+ name fp
  end.

Definition row_thumb (w : world) (ts : Z) (fp : Path) (row : Z) : list (PIL.size * (Z * Z)) :=
  match render w ts fp with
  | Some thumb => [(thumb, A row)]
  | None => []
  end.

Definition run (w : world) (ts : Z) (files : list Path) (st : worksheet * Z) : worksheet * Z :=
  fold_left (loop_body w ts) files st.

(** The file that owns spreadsheet row [r] when the loop starts at [row]. *)
Definition owner (files : list Path) (row r : Z) : option Path :=
  if bool_decide (row ≤ r) then files !! Z.to_nat (r - row) else None.

(** The pictures the loop embeds, in order. *)
Fixpoint thumbs (w : world) (ts : Z) (files : list Path) (row : Z) : list (PIL.size * (Z * Z)) :=
  match files with
  | [] => []
  | fp :: files' => row_thumb w ts fp row ++ thumbs w ts files' (row + 1)
  end.

(** The conditions outside the row loop under which a run gets as far as
    saving to [p]: the libraries load, the input is a directory, the output
    path resolves to [p], and its folder exists or can be made and the
    file can be written. *)
Definition reaches_save (w : world) (a : args) (p : Path) : Prop :=
  pillow_installed w = true ∧ openpyxl_installed w = true ∧
  is_dir w (input a) = true ∧
  resolve_output w a = Some p ∧
  (exists_ w (parent p) = true ∨ can_mkdir w (parent p) = true) ∧
  can_save w p = true.

Definition document (w : world) (a : args) : worksheet :=
  fst (fill w (thumb_size a) (collect w (input a) (recursive a))).

(** The spreadsheet rows that hold a cell. *)
Definition rows (ws : worksheet) : gset Z := set_map fst (dom (cells ws)).

(** [descends n rel m]: following the names [rel] from directory [n], one
    entry at a time, leads to [m]. *)
Inductive descends : node → list string → node → Prop :=
| descends_entry es nm c :
    (nm, c) ∈ es → descends (Dir es) [nm] c
| descends_below es nm c rel m :
    (nm, c) ∈ es → descends c rel m → descends (Dir es) (nm :: rel) m.


(** ** Sample runs *)

Definition sample_clock : datetime :=
  {| year := 2024; month := 3; day := 9; hour := 7; minute := 5; second := 59 |}.

(** A working directory holding [images/] (two pictures, an unreadable
    [a.jpg], a text file and a folder named like a picture) and [out/]. *)
Definition sample_world : world :=
  {| root :=
       Dir [("images",
             Dir [("b.png", File (Picture 640 480));
                  ("a.jpg", File Garbage);
                  ("notes.txt", File Garbage);
                  ("photo.v2.jpg", File (Picture 50 60));
                  ("album.png", Dir [])]);
            ("empty", Dir [("notes.txt", File Garbage)]);
            ("out", Dir [])];
     cwd := [];
     now := sample_clock;
     pillow_installed := true;
     openpyxl_installed := true;
     can_mkdir := λ _, true;
     can_save := λ _, true |}.

Definition sample_args : args :=
  {| input := ["images"]; output := ["out"; "inventory.xlsx"];
     thumb_size := 100; timestamped := false; recursive := false |}.

Definition sample_output : Path := ["out"; "inventory.xlsx"].

Definition empty_args : args :=
  {| input := ["empty"]; output := ["out"; "inventory.xlsx"];
     thumb_size := 100; timestamped := false; recursive := true |}.

Definition missing_args : args :=
  {| input := ["images"; "b.png"]; output := ["out"; "inventory.xlsx"];
     thumb_size := 100; timestamped := true; recursive := false |}.



Definition recursive_args : args :=
  {| input := ["images"]; output := ["out"; "inventory.xlsx"];
     thumb_size := 100; timestamped := false; recursive := true |}.







(** Every file that decodes does so to a picture of positive width and
    height, as an image decoder delivers. *)
Definition decodes_positive (w : world) : Prop :=
  ∀ p width height,
    lookup_path w p = Some (File (Picture width height)) →
    0 < width ∧ 0 < height.

(** The sample world on a machine where openpyxl is missing. *)
Definition world_without_openpyxl : world :=
  {| root := root sample_world; cwd := cwd sample_world;
     now := now sample_world;
     pillow_installed := true; openpyxl_installed := false;
     can_mkdir := can_mkdir sample_world; can_save := can_save sample_world |}.

(** The sample world where neither a folder nor a file can be written. *)
Definition world_read_only : world :=
  {| root := root sample_world; cwd := cwd sample_world;
     now := now sample_world;
     pillow_installed := true; openpyxl_installed := true;
     can_mkdir := λ _, false; can_save := λ _, false |}.

Definition nameless_args : args :=
  {| input := ["images"]; output := [];
     thumb_size := 100; timestamped := true; recursive := false |}.

Definition zero_size_args : args :=
  {| input := ["images"]; output := ["out"; "inventory.xlsx"];
     thumb_size := 0; timestamped := false; recursive := false |}.

(** A picture folder with a sub-folder that is itself named like a
    picture and holds one. *)
Definition nested_world : world :=
  {| root :=
       Dir [("images",
             Dir [("zebra.png", File (Picture 300 200));
                  ("album.png", Dir [("x.webp", File (Picture 1000 1))])])];
     cwd := [];
     now := sample_clock;
     pillow_installed := true;
     openpyxl_installed := true;
     can_mkdir := λ _, true;
     can_save := λ _, true |}.

(** * Properties *)

(** ** The order on paths *)

Section PathOrder.

Lemma ascii_compare_refl a : Ascii.compare a a = Eq.
Proof. unfold Ascii.compare. apply N.compare_refl. Qed.

Lemma ascii_compare_lt_trans a b c :
  Ascii.compare a b = Lt → Ascii.compare b c = Lt → Ascii.compare a c = Lt.
Proof.
  unfold Ascii.compare. rewrite !N.compare_lt_iff. lia.
Qed.

Lemma string_compare_refl s : String.compare s s = Eq.
Proof. induction s as [|a s IH]; simpl; [done|]. by rewrite ascii_compare_refl. Qed.

Lemma string_compare_lt_trans s t u :
  String.compare s t = Lt → String.compare t u = Lt → String.compare s u = Lt.
Proof.
  revert t u. induction s as [|a s IH]; intros [|b t] [|c u]; simpl; try done.
  destruct (Ascii.compare a b) eqn:Hab; try done;
    destruct (Ascii.compare b c) eqn:Hbc; try done; intros H1 H2.
  - apply Ascii.compare_eq_iff in Hab, Hbc. subst.
    rewrite ascii_compare_refl. eauto.
  - apply Ascii.compare_eq_iff in Hab. subst. by rewrite Hbc.
  - apply Ascii.compare_eq_iff in Hbc. subst. by rewrite Hab.
  - by rewrite (ascii_compare_lt_trans _ _ _ Hab Hbc).
Qed.

Lemma compare_refl p : PurePath.compare p p = Eq.
Proof. induction p as [|a p IH]; simpl; [done|]. by rewrite string_compare_refl. Qed.

Lemma compare_eq p q : PurePath.compare p q = Eq → p = q.
Proof.
  revert q. induction p as [|a p IH]; intros [|b q]; simpl; try done.
  destruct (String.compare a b) eqn:Hab; try done.
  apply String.compare_eq_iff in Hab. intros ?%IH. by subst.
Qed.

Lemma compare_antisym p q :
  PurePath.compare p q = CompOpp (PurePath.compare q p).
Proof.
  revert q. induction p as [|a p IH]; intros [|b q]; simpl; try done.
  rewrite (String.compare_antisym b a).
  destruct (String.compare a b); simpl; auto.
Qed.

Lemma compare_lt_trans p q r :
  PurePath.compare p q = Lt → PurePath.compare q r = Lt →
  PurePath.compare p r = Lt.
Proof.
  revert q r. induction p as [|a p IH]; intros [|b q] [|c r]; simpl; try done.
  destruct (String.compare a b) eqn:Hab; try done;
    destruct (String.compare b c) eqn:Hbc; try done; intros H1 H2.
  - apply String.compare_eq_iff in Hab, Hbc. subst.
    rewrite string_compare_refl. eauto.
  - apply String.compare_eq_iff in Hab. subst. by rewrite Hbc.
  - apply String.compare_eq_iff in Hbc. subst. by rewrite Hab.
  - by rewrite (string_compare_lt_trans _ _ _ Hab Hbc).
Qed.

Lemma le_lt_or_eq p q : PurePath.le p q ↔ PurePath.compare p q = Lt ∨ p = q.
Proof.
  unfold PurePath.le. split.
  - destruct (PurePath.compare p q) eqn:H; try done; [|by left].
    right. by apply compare_eq.
  - intros [->| ->]; [done|]. by rewrite compare_refl.
Qed.

#[global] Instance le_refl : Reflexive PurePath.le.
Proof. intros p. unfold PurePath.le. by rewrite compare_refl. Qed.

#[global] Instance le_trans : Transitive PurePath.le.
Proof.
  intros p q r. rewrite !le_lt_or_eq.
  intros [H1| ->] [H2| ->]; eauto using compare_lt_trans.
Qed.

#[global] Instance le_antisym : AntiSymm (=) PurePath.le.
Proof.
  intros p q. rewrite !le_lt_or_eq.
  intros [H1| ->] [H2| H2]; try done.
  rewrite compare_antisym, H1 in H2. done.
Qed.

Lemma ltb_le p q : PurePath.ltb p q = true → PurePath.le p q.
Proof.
  unfold PurePath.ltb, PurePath.le. by destruct (PurePath.compare p q).
Qed.

Lemma not_ltb_le p q : PurePath.ltb p q = false → PurePath.le q p.
Proof.
  unfold PurePath.ltb, PurePath.le. rewrite (compare_antisym q p).
  by destruct (PurePath.compare p q).
Qed.

End PathOrder.

(** ** [sorted] sorts *)

Section Sorting.

Lemma insert_sorted_perm x l : insert_sorted x l ≡ₚ x :: l.
Proof.
  induction l as [|y l IH]; simpl; [done|].
  destruct (PurePath.ltb y x); [|done].
  rewrite IH. apply Permutation_swap.
Qed.

Lemma sorted_perm l : sorted l ≡ₚ l.
Proof.
  induction l as [|x l IH]; simpl; [done|].
  by rewrite insert_sorted_perm, IH.
Qed.

Lemma insert_sorted_ordered x l :
  StronglySorted PurePath.le l → StronglySorted PurePath.le (insert_sorted x l).
Proof.
  induction l as [|y l IH]; simpl; intros Hs.
  - repeat constructor.
  - apply StronglySorted_inv in Hs as [Hl Hy].
    destruct (PurePath.ltb y x) eqn:Hyx.
    + constructor; [by apply IH|].
      rewrite insert_sorted_perm. constructor; [by apply ltb_le|done].
    + apply not_ltb_le in Hyx. constructor; [by constructor|].
      constructor; [done|].
      eapply Forall_impl; [exact Hy|]. intros z Hz. by etrans.
Qed.

Lemma sorted_ordered l : StronglySorted PurePath.le (sorted l).
Proof.
  induction l as [|x l IH]; simpl; [constructor|].
  by apply insert_sorted_ordered.
Qed.


Lemma elem_of_sorted p l : p ∈ sorted l ↔ p ∈ l.
Proof. by rewrite sorted_perm. Qed.

End Sorting.

(** ** The row loop *)

Section RowLoop.

Variable w : world.
Variable ts : Z.

Lemma loop_body_row ws row fp : snd (loop_body w ts (ws, row) fp) = row + 1.
Proof. unfold loop_body. by destruct (render w ts fp). Qed.

Lemma loop_body_cells ws row fp :
  cells (fst (loop_body w ts (ws, row) fp)) = <[B row := row_text w ts fp]> (cells ws).
Proof. unfold loop_body, row_text. by destruct (render w ts fp). Qed.

Lemma loop_body_heights ws row fp :
  row_height (fst (loop_body w ts (ws, row) fp)) =
  match render w ts fp with
  | Some _ => <[row := row_height_for ts]> (row_height ws)
  | None => row_height ws
  end.
Proof. unfold loop_body. by destruct (render w ts fp). Qed.

Lemma loop_body_images ws row fp :
  images (fst (loop_body w ts (ws, row) fp)) = images ws ++ row_thumb w ts fp row.
Proof.
  unfold loop_body, row_thumb. destruct (render w ts fp); simpl; [done|].
  by rewrite app_nil_r.
Qed.

Lemma loop_body_rest ws row fp :
  let ws' := fst (loop_body w ts (ws, row) fp) in
  title ws' = title ws ∧ freeze_panes ws' = freeze_panes ws ∧
  column_width ws' = column_width ws.
Proof. unfold loop_body. by destruct (render w ts fp). Qed.

Lemma run_cons fp files ws row :
  run w ts (fp :: files) (ws, row) =
  run w ts files (fst (loop_body w ts (ws, row) fp), row + 1).
Proof.
  unfold run. cbn [fold_left]. f_equal.
  unfold loop_body. by destruct (render w ts fp).
Qed.

Lemma run_row files ws row :
  snd (run w ts files (ws, row)) = row + Z.of_nat (length files).
Proof.
  revert ws row. induction files as [|fp files IH]; intros ws row.
  - simpl. lia.
  - rewrite run_cons, IH. simpl. lia.
Qed.

Lemma owner_cons_here fp files row : owner (fp :: files) row row = Some fp.
Proof.
  unfold owner. rewrite bool_decide_true by lia. by rewrite Z.sub_diag.
Qed.

Lemma owner_cons_later fp files row r :
  r ≠ row → owner (fp :: files) row r = owner files (row + 1) r.
Proof.
  intros Hr. unfold owner. repeat case_bool_decide; try lia; try done.
  replace (Z.to_nat (r - row)) with (S (Z.to_nat (r - (row + 1)))) by lia.
  done.
Qed.

Lemma owner_index files i fp :
  files !! i = Some fp → owner files 2 (2 + Z.of_nat i) = Some fp.
Proof.
  intros H. unfold owner. rewrite bool_decide_true by lia.
  by replace (Z.to_nat (2 + Z.of_nat i - 2)) with i by lia.
Qed.

Lemma owner_is_Some files row r :
  is_Some (owner files row r) ↔ row ≤ r < row + Z.of_nat (length files).
Proof.
  unfold owner. case_bool_decide.
  - rewrite lookup_lt_is_Some. lia.
  - split; [by intros [? ?]|lia].
Qed.

Lemma run_cells files ws row r c :
  cells (fst (run w ts files (ws, row))) !! (r, c) =
  match (if bool_decide (c = 2) then owner files row r else None) with
  | Some fp => Some (row_text w ts fp)
  | None => cells ws !! (r, c)
  end.
Proof.
  revert ws row. induction files as [|fp files IH]; intros ws row.
  - simpl. unfold owner. rewrite lookup_nil. by repeat case_bool_decide.
  - rewrite run_cons, IH, loop_body_cells. unfold B.
    destruct (decide (r = row)) as [->|Hr].
    + rewrite owner_cons_here.
      replace (owner files (row + 1) row) with (@None Path)
        by (unfold owner; by rewrite bool_decide_false by lia).
      case_bool_decide; subst.
      * by rewrite lookup_insert_eq.
      * rewrite lookup_insert_ne; [done|congruence].
    + rewrite owner_cons_later by done.
      destruct (if bool_decide (c = 2) then owner files (row + 1) r else None);
        [done|].
      rewrite lookup_insert_ne; [done|congruence].
Qed.

Lemma run_heights files ws row r :
  row_height (fst (run w ts files (ws, row))) !! r =
  match owner files row r ≫= render w ts with
  | Some _ => Some (row_height_for ts)
  | None => row_height ws !! r
  end.
Proof.
  revert ws row. induction files as [|fp files IH]; intros ws row.
  - simpl. unfold owner. rewrite lookup_nil. by case_bool_decide.
  - rewrite run_cons, IH, loop_body_heights.
    destruct (decide (r = row)) as [->|Hr].
    + rewrite owner_cons_here.
      replace (owner files (row + 1) row) with (@None Path)
        by (unfold owner; by rewrite bool_decide_false by lia).
      simpl. destruct (render w ts fp); [|done].
      by rewrite lookup_insert_eq.
    + rewrite owner_cons_later by done.
      destruct (owner files (row + 1) r ≫= render w ts); [done|].
      destruct (render w ts fp); [|done].
      by rewrite lookup_insert_ne.
Qed.

Lemma run_images files ws row :
  images (fst (run w ts files (ws, row))) = images ws ++ thumbs w ts files row.
Proof.
  revert ws row. induction files as [|fp files IH]; intros ws row.
  - simpl. by rewrite app_nil_r.
  - rewrite run_cons, IH, loop_body_images. simpl. by rewrite <- app_assoc.
Qed.

Lemma elem_of_thumbs files row img r c :
  (img, (r, c)) ∈ thumbs w ts files row ↔
  c = 1 ∧ ∃ fp, owner files row r = Some fp ∧ render w ts fp = Some img.
Proof.
  revert row. induction files as [|fp files IH]; intros row; simpl.
  - rewrite elem_of_nil. unfold owner. rewrite lookup_nil.
    split; [done|]. intros [_ [fp [H _]]]. by case_bool_decide.
  - rewrite elem_of_app, IH. unfold row_thumb, A.
    destruct (decide (r = row)) as [->|Hr].
    + rewrite owner_cons_here.
      replace (owner files (row + 1) row) with (@None Path)
        by (unfold owner; by rewrite bool_decide_false by lia).
      destruct (render w ts fp) eqn:Hfp.
      * rewrite list_elem_of_singleton. split.
        -- intros [[= -> ->]|[_ [? [? _]]]]; [|done]. eauto.
        -- intros [-> [fp' [[= <-] Hr]]]. left. congruence.
      * rewrite elem_of_nil. split.
        -- intros [[]|[_ [? [? _]]]]. done.
        -- intros [_ [fp' [[= <-] Hr]]]. congruence.
    + rewrite owner_cons_later by done.
      destruct (render w ts fp).
      * rewrite list_elem_of_singleton. split; [|tauto].
        intros [[= -> ->]|?]; done.
      * rewrite elem_of_nil. tauto.
Qed.

Lemma run_rest files ws row :
  let ws' := fst (run w ts files (ws, row)) in
  title ws' = title ws ∧ freeze_panes ws' = freeze_panes ws ∧
  column_width ws' = column_width ws.
Proof.
  revert ws row. induction files as [|fp files IH]; intros ws row; [done|].
  rewrite run_cons.
  destruct (IH (fst (loop_body w ts (ws, row) fp)) (row + 1)) as (H1 & H2 & H3).
  destruct (loop_body_rest ws row fp) as (H4 & H5 & H6).
  cbv zeta in *. by rewrite H1, H2, H3.
Qed.

End RowLoop.

(** ** What [main] does when it reaches [wb.save] *)

Lemma is_dir_exists w p : is_dir w p = true → exists_ w p = true.
Proof.
  unfold is_dir, exists_. by destruct (lookup_path w p) as [[]|].
Qed.

Lemma main_reaches_save w a p :
  reaches_save w a p →
  ∃ made,
    main w a =
      {| stdout := ["Excel created: " +:+ str (resolve w p);
                    "Images processed: "
                      +:+ Str.decimal (length (collect w (input a) (recursive a)))];
         stderr := match collect w (input a) (recursive a) with
                   | [] => ["WARNING: No supported image files found in: "
                              +:+ str (input a)]
                   | _ => []
                   end;
         status := Exit 0;
         effects := made ++ [Save p (document w a)] |} ∧
    (made = [] ∨ made = [Mkdir (parent p)]).
Proof.
  intros (Hpil & Hxl & Hdir & Hout & Hparent & Hsave).
  unfold main. rewrite Hpil, Hxl, Hdir, (is_dir_exists _ _ Hdir), Hout. simpl.
  rewrite Hsave.
  destruct (exists_ w (parent p)) eqn:Hex; simpl.
  - exists []. eauto.
  - destruct Hparent as [?|Hmk]; [done|]. rewrite Hmk. simpl. exists [Mkdir (parent p)]. eauto.
Qed.

Lemma main_saved w a p doc :
  Save p doc ∈ effects (main w a) → reaches_save w a p ∧ doc = document w a.
Proof.
  unfold main, reaches_save, failed.
  destruct (pillow_installed w); simpl; [|by intros ?%elem_of_nil].
  destruct (openpyxl_installed w); simpl; [|by intros ?%elem_of_nil].
  destruct (exists_ w (input a)) eqn:Hex; simpl; [|by intros ?%elem_of_nil].
  destruct (is_dir w (input a)) eqn:Hdir; simpl; [|by intros ?%elem_of_nil].
  destruct (resolve_output w a) as [out|]; simpl; [|by intros ?%elem_of_nil].
  destruct (exists_ w (parent out)) eqn:Hpar; simpl.
  - destruct (can_save w out) eqn:Hsave; simpl; [|by intros ?%elem_of_nil].
    rewrite list_elem_of_singleton. intros [= -> ->]. eauto 10.
  - destruct (can_mkdir w (parent out)) eqn:Hmk; simpl;
      [|by intros ?%elem_of_nil].
    destruct (can_save w out) eqn:Hsave; simpl.
    + rewrite elem_of_cons, list_elem_of_singleton.
      intros [?|[= -> ->]]; [done|]. eauto 10.
    + rewrite list_elem_of_singleton. done.
Qed.

Lemma reaches_save_saved w a p :
  reaches_save w a p → Save p (document w a) ∈ effects (main w a).
Proof.
  intros (made & -> & _)%main_reaches_save. simpl.
  rewrite elem_of_app, list_elem_of_singleton. by right.
Qed.

(** ** The document *)

Lemma fill_run w ts files : fill w ts files = run w ts files (prepare_workbook, 2).
Proof. done. Qed.

Lemma header_cells r c :
  cells prepare_workbook !! (r, c) =
  if bool_decide (r = 1 ∧ c = 1) then Some "Photo"
  else if bool_decide (r = 1 ∧ c = 2) then Some "Temporary Name"
  else None.
Proof.
  unfold prepare_workbook, A, B. simpl.
  repeat case_bool_decide; destruct_and?; subst.
  - by rewrite lookup_insert_ne, lookup_insert_eq.
  - by rewrite lookup_insert_eq.
  - rewrite !lookup_insert_ne; [done| |]; intros [= <- <-]; tauto.
Qed.

Lemma fill_cells w ts files r c :
  cells (fst (fill w ts files)) !! (r, c) =
  match (if bool_decide (c = 2) then owner files 2 r else None) with
  | Some fp => Some (row_text w ts fp)
  | None => cells prepare_workbook !! (r, c)
  end.
Proof. rewrite fill_run. apply run_cells. Qed.

Lemma fill_cell_is_Some w ts files r c :
  is_Some (cells (fst (fill w ts files)) !! (r, c)) ↔
  (r = 1 ∧ (c = 1 ∨ c = 2)) ∨ (c = 2 ∧ 2 ≤ r < 2 + Z.of_nat (length files)).
Proof.
  rewrite fill_cells, header_cells.
  assert (∀ fp, owner files 2 r = Some fp →
                2 ≤ r < 2 + Z.of_nat (length files)) as Hsome.
  { intros fp H. apply owner_is_Some. eauto. }
  assert (owner files 2 r = None →
          ¬ (2 ≤ r < 2 + Z.of_nat (length files))) as Hnone.
  { intros H Hin. apply owner_is_Some in Hin as [? Hin]. congruence. }
  destruct (owner files 2 r) as [fp|];
    [specialize (Hsome fp eq_refl); clear Hnone
    |specialize (Hnone eq_refl); clear Hsome];
    repeat case_bool_decide; split; intros Hs;
    first [by eauto | by destruct Hs as [? [=]] | lia | (exfalso; lia)].
Qed.

Lemma fill_rows w ts files :
  rows (fst (fill w ts files)) =
  list_to_set (seqZ 1 (1 + Z.of_nat (length files))).
Proof.
  apply set_eq. intros r. unfold rows.
  rewrite elem_of_map, elem_of_list_to_set, elem_of_seqZ. split.
  - intros ([r' c] & -> & Hin). apply elem_of_dom, fill_cell_is_Some in Hin.
    simpl. lia.
  - intros Hr. destruct (decide (r = 1)) as [->|Hne].
    + exists (1, 1). split; [done|]. apply elem_of_dom, fill_cell_is_Some. lia.
    + exists (r, 2). split; [done|]. apply elem_of_dom, fill_cell_is_Some. lia.
Qed.

Lemma fill_rows_size w ts files :
  size (rows (fst (fill w ts files))) = S (length files).
Proof.
  rewrite fill_rows, size_list_to_set by apply NoDup_seqZ.
  rewrite length_seqZ. lia.
Qed.

Lemma fill_images w ts files :
  images (fst (fill w ts files)) = thumbs w ts files 2.
Proof. rewrite fill_run, run_images. done. Qed.

Lemma fill_heights w ts files r :
  row_height (fst (fill w ts files)) !! r =
  (owner files 2 r ≫= render w ts) ≫= λ _, Some (row_height_for ts).
Proof.
  rewrite fill_run, run_heights. simpl. rewrite lookup_empty.
  by destruct (owner files 2 r ≫= render w ts).
Qed.






Lemma sample_reaches_save : reaches_save sample_world sample_args sample_output.
Proof. repeat split; try reflexivity. left. reflexivity. Qed.

(** * Properties of the specification *)

(** C1. The document that [main] saves holds exactly one data row per
    collected file, in collection order: file number [i] owns spreadsheet
    row [2 + i], where column B carries its stem on success and the error
    placeholder on failure; the row counter moves by one in either branch
    of the loop body; and the rows that hold a cell are the header row
    plus one per collected file. *)
Theorem C1_one_row_per_collected_file
    (w : world) (a : args) (p : Path) (doc : worksheet) :
  Save p doc ∈ effects (main w a) →
  let files := collect w (input a) (recursive a) in
  let ts := thumb_size a in
  snd (fill w ts files) = 2 + Z.of_nat (length files) ∧
  (∀ ws row fp, snd (loop_body w ts (ws, row) fp) = row + 1) ∧
  (∀ (i : nat) fp, files !! i = Some fp →
     cells doc !! B (2 + Z.of_nat i) =
     Some (match render w ts fp with
           | Some _ => stem fp
           | None => "[ERROR reading image] " +:+ name fp
           end)) ∧
  (∀ r c, is_Some (cells doc !! (r, c)) ↔
          (r = 1 ∧ (c = 1 ∨ c = 2)) ∨
          (c = 2 ∧ 2 ≤ r < 2 + Z.of_nat (length files))) ∧
  size (rows doc) = S (length files).
Proof.
  intros [_ ->]%main_saved files ts. unfold document. fold files ts.
  split_and!.
  - rewrite fill_run, run_row. done.
  - apply loop_body_row.
  - intros i fp Hi. unfold B. rewrite fill_cells.
    rewrite bool_decide_true by done. by rewrite (owner_index _ _ _ Hi).
  - apply fill_cell_is_Some.
  - apply fill_rows_size.
Qed.

Lemma C1_one_row_per_collected_file_witness :
  Save sample_output (document sample_world sample_args)
    ∈ effects (main sample_world sample_args) ∧
  size (rows (document sample_world sample_args)) = 4%nat.
Proof.
  pose proof (reaches_save_saved _ _ _ sample_reaches_save) as Hsaved.
  split; [exact Hsaved|].
  exact (proj2 (proj2 (proj2 (proj2
    (C1_one_row_per_collected_file _ _ _ _ Hsaved))))).
Defined.






(** C6. When the input path does not exist or is not a directory the run
    prints to standard error, ends with a non-zero status and has no
    effect on the file system: nothing is created, nothing is written.
    With both libraries installed the message is the script's
    ["ERROR: Input folder not found or not a directory: <path>"] and the
    status is [sys.exit(1)]. *)
Theorem C6_bad_input_is_fatal (w : world) (a : args) :
  exists_ w (input a) = false ∨ is_dir w (input a) = false →
  exit_status (status (main w a)) ≠ 0 ∧
  stderr (main w a) ≠ [] ∧
  stdout (main w a) = [] ∧
  effects (main w a) = [] ∧
  (pillow_installed w = true → openpyxl_installed w = true →
   status (main w a) = Exit 1 ∧
   stderr (main w a) =
     ["ERROR: Input folder not found or not a directory: " +:+ str (input a)]).
Proof.
  intros Hbad.
  assert (negb (exists_ w (input a)) || negb (is_dir w (input a)) = true) as Hc.
  { destruct Hbad as [-> | ->]; [done|]. apply orb_true_r. }
  unfold main, failed.
  destruct (pillow_installed w); simpl; [|by split_and!].
  destruct (openpyxl_installed w); simpl; [|by split_and!].
  rewrite Hc. simpl. by split_and!.
Qed.

Lemma C6_bad_input_is_fatal_witness :
  (exists_ sample_world (input missing_args) = false ∨
   is_dir sample_world (input missing_args) = false) ∧
  effects (main sample_world missing_args) = [].
Proof.
  assert (exists_ sample_world (input missing_args) = false ∨
          is_dir sample_world (input missing_args) = false) as Hbad.
  { right. reflexivity. }
  split; [exact Hbad|].
  exact (proj1 (proj2 (proj2 (proj2
    (C6_bad_input_is_fatal sample_world missing_args Hbad))))).
Defined.

(** C9. When no file matches, a run that can write its output prints the
    warning to standard error, goes on, saves a document that is the
    prepared workbook untouched (the header row alone: no further cell,
    picture or row height), reports zero images and exits with status 0. *)
Theorem C9_no_match_gives_header_only_document
    (w : world) (a : args) (p : Path) :
  reaches_save w a p →
  collect w (input a) (recursive a) = [] →
  stderr (main w a) =
    ["WARNING: No supported image files found in: " +:+ str (input a)] ∧
  status (main w a) = Exit 0 ∧
  stdout (main w a) =
    ["Excel created: " +:+ str (resolve w p); "Images processed: 0"] ∧
  ∃ doc,
    Save p doc ∈ effects (main w a) ∧
    doc = prepare_workbook ∧
    rows doc = {[ 1 ]} ∧
    cells doc = {[ A 1 := "Photo"; B 1 := "Temporary Name" ]} ∧
    images doc = [] ∧
    row_height doc = ∅.
Proof.
  intros Hrun Hnone.
  destruct (main_reaches_save _ _ _ Hrun) as (made & Hmain & _).
  rewrite Hmain, Hnone. simpl. split_and!; try done.
  exists (document w a).
  assert (document w a = prepare_workbook) as Hdoc.
  { unfold document. by rewrite Hnone. }
  split_and!.
  - rewrite elem_of_app, list_elem_of_singleton. by right.
  - done.
  - unfold document. rewrite fill_rows, Hnone.
    apply set_eq. intros r. rewrite elem_of_list_to_set, elem_of_seqZ.
    rewrite elem_of_singleton. cbn [length]. lia.
  - rewrite Hdoc. unfold prepare_workbook, A, B. simpl.
    apply map_eq. intros k. rewrite !lookup_insert, lookup_singleton.
    repeat case_decide; simplify_eq; done.
  - by rewrite Hdoc.
  - by rewrite Hdoc.
Qed.

Lemma C9_no_match_gives_header_only_document_witness :
  reaches_save sample_world empty_args sample_output ∧
  collect sample_world (input empty_args) (recursive empty_args) = [] ∧
  status (main sample_world empty_args) = Exit 0.
Proof.
  assert (reaches_save sample_world empty_args sample_output) as Hrun.
  { repeat split; try reflexivity. left. reflexivity. }
  split_and!; [exact Hrun|reflexivity|].
  exact (proj1 (proj2 (C9_no_match_gives_header_only_document
                         sample_world empty_args sample_output Hrun eq_refl))).
Defined.

(** ** The collector *)

Section Collector.

Lemma walk_app n p q : walk n (p ++ q) = walk n p ≫= λ m, walk m q.
Proof.
  revert n. induction p as [|a p IH]; intros n; simpl; [done|].
  destruct n as [c|es]; [done|]. by destruct (find_entry a es).
Qed.

Lemma is_absolute_joinpath d nm :
  nm ≠ "/" → is_absolute (joinpath d nm) = is_absolute d.
Proof.
  intros Hnm. destruct d as [|a d]; simpl; [|done].
  by apply bool_decide_eq_false.
Qed.

Lemma lookup_joinpath w d nm :
  nm ≠ "/" →
  lookup_path w (joinpath d nm) = lookup_path w d ≫= λ n, walk n [nm].
Proof.
  intros Hnm. unfold lookup_path. rewrite is_absolute_joinpath by done.
  destruct (is_absolute d) eqn:Habs.
  - destruct d as [|a d]; [done|]. unfold joinpath. simpl tail. apply walk_app.
  - unfold joinpath. rewrite app_assoc. apply walk_app.
Qed.

Lemma find_entry_elem_of nm es n : find_entry nm es = Some n → (nm, n) ∈ es.
Proof.
  unfold find_entry. destruct (find _ es) as [[nm' n']|] eqn:Hf; [|done].
  intros [= <-]. apply find_some in Hf as [Hin Heq]. simpl in Heq.
  apply String.eqb_eq in Heq as ->. by apply list_elem_of_In.
Qed.

(** A path that leads to something is listed by its parent directory. *)
Lemma lookup_child w d nm n :
  nm ≠ "/" →
  lookup_path w (joinpath d nm) = Some n →
  ∃ es, lookup_path w d = Some (Dir es) ∧ (nm, n) ∈ es.
Proof.
  intros Hnm. rewrite lookup_joinpath by done.
  destruct (lookup_path w d) as [[c|es]|]; simpl; try done.
  destruct (find_entry nm es) as [m|] eqn:Hf; [|done].
  intros [= <-]. eauto using find_entry_elem_of.
Qed.

Lemma elem_of_iterdir_node d es nm n :
  (nm, n) ∈ es → joinpath d nm ∈ iterdir_node d (Dir es).
Proof.
  intros Hin. simpl. apply list_elem_of_In, in_map_iff.
  exists (nm, n). split; [done|]. by apply list_elem_of_In.
Qed.

Lemma iterdir_rglob_node d n p : p ∈ iterdir_node d n → p ∈ rglob_node d n.
Proof. destruct n; simpl; [done|]. rewrite elem_of_app. by left. Qed.

Lemma rglob_node_below d es nm c p :
  (nm, c) ∈ es → p ∈ rglob_node (joinpath d nm) c → p ∈ rglob_node d (Dir es).
Proof.
  intros Hin Hp. simpl. rewrite elem_of_app. right.
  apply list_elem_of_In, in_flat_map. exists (nm, c).
  split; by apply list_elem_of_In.
Qed.

(** Recursive enumeration reaches whatever exists below the directory,
    at any depth. *)
Lemma rglob_node_complete d n rel m :
  rel ≠ [] → walk n rel = Some m → d ++ rel ∈ rglob_node d n.
Proof.
  revert d n. induction rel as [|nm rel IH]; intros d n Hne; [done|].
  simpl. destruct n as [c|es]; [done|].
  destruct (find_entry nm es) as [c|] eqn:Hf; [|done].
  apply find_entry_elem_of in Hf. intros Hw.
  destruct rel as [|nm' rel].
  - apply iterdir_rglob_node. by apply elem_of_iterdir_node with c.
  - apply rglob_node_below with nm c; [done|].
    replace (d ++ nm :: nm' :: rel) with (joinpath d nm ++ nm' :: rel)
      by (unfold joinpath; by rewrite <- app_assoc).
    by apply IH.
Qed.

(** Induction on a tree, with the hypothesis for every entry of a
    directory. *)
Lemma node_forall_ind (P : node → Prop) :
  (∀ c, P (File c)) →
  (∀ es, Forall (λ e, P (snd e)) es → P (Dir es)) →
  ∀ n, P n.
Proof.
  intros HF HD. fix IH 1. intros [c|es]; [apply HF|].
  apply HD. induction es as [|[nm c] es IHes]; constructor.
  - apply IH.
  - apply IHes.
Qed.

(** Recursive enumeration lists exactly the proper descendants: files
    and directories alike. *)
Lemma elem_of_rglob_node d n p :
  p ∈ rglob_node d n ↔ ∃ rel m, descends n rel m ∧ p = d ++ rel.
Proof.
  revert d p. induction n as [c|es IH] using node_forall_ind; intros d p.
  - simpl. rewrite elem_of_nil. split; [done|].
    intros (rel & m & Hd & _). inversion Hd.
  - simpl. rewrite elem_of_app, !list_elem_of_In, in_map_iff, in_flat_map.
    split.
    + intros [([nm c] & <- & Hin)|([nm c] & Hin & Hp)].
      * exists [nm], c. split; [|done]. constructor. by apply list_elem_of_In.
      * apply list_elem_of_In in Hin, Hp.
        rewrite Forall_forall in IH. apply (IH _ Hin) in Hp.
        destruct Hp as (rel & m & Hd & ->).
        exists (nm :: rel), m. split; [by econstructor|].
        unfold joinpath. by rewrite <- app_assoc.
    + intros (rel & m & Hd & ->). inversion Hd as [es' nm c Hin|es' nm c rel' m' Hin Hd']; subst.
      * left. exists (nm, m). split; [done|]. by apply list_elem_of_In.
      * right. exists (nm, c). split; [by apply list_elem_of_In|].
        apply list_elem_of_In. rewrite Forall_forall in IH.
        apply (IH _ Hin). exists rel', m. split; [done|].
        unfold joinpath. by rewrite <- app_assoc.
Qed.

Lemma elem_of_collect_flat w d p :
  p ∈ collect w d false ↔
  p ∈ iterdir w d ∧ is_file w p = true ∧ supported p.
Proof.
  unfold collect. rewrite elem_of_sorted, list_elem_of_filter. tauto.
Qed.

Lemma elem_of_collect_recursive w d p :
  p ∈ collect w d true ↔ p ∈ rglob w d ∧ supported p.
Proof.
  unfold collect. rewrite elem_of_sorted, list_elem_of_filter. tauto.
Qed.

Lemma collect_supported w d rec p : p ∈ collect w d rec → supported p.
Proof.
  destruct rec.
  - rewrite elem_of_collect_recursive. tauto.
  - rewrite elem_of_collect_flat. tauto.
Qed.

Lemma collect_ordered w d rec : StronglySorted PurePath.le (collect w d rec).
Proof. unfold collect. destruct rec; apply sorted_ordered. Qed.

(** A regular file directly in the directory, with a supported suffix,
    is collected in either mode. *)
Lemma collect_child_file w d nm rec :
  nm ≠ "/" →
  is_file w (joinpath d nm) = true →
  supported (joinpath d nm) →
  joinpath d nm ∈ collect w d rec.
Proof.
  intros Hnm Hfile Hsup.
  assert (joinpath d nm ∈ iterdir w d) as Hin.
  { unfold is_file in Hfile.
    destruct (lookup_path w (joinpath d nm)) as [n|] eqn:Hl; [|done].
    apply lookup_child in Hl as (es & Hd & Hes); [|done].
    unfold iterdir. rewrite Hd. by apply elem_of_iterdir_node with n. }
  destruct rec.
  - apply elem_of_collect_recursive. split; [|done].
    unfold iterdir, rglob in *. destruct (lookup_path w d); [|done].
    by apply iterdir_rglob_node.
  - by apply elem_of_collect_flat.
Qed.

Lemma name_joinpath d nm : nm ≠ "/" → name (joinpath d nm) = nm.
Proof.
  intros Hnm. unfold name, joinpath. rewrite bool_decide_false.
  - apply last_last.
  - destruct d as [|a [|b d]]; simpl; congruence.
Qed.

End Collector.

Lemma collect_flat_exact w d p :
  p ∈ collect w d false ↔
  ∃ es nm n, lookup_path w d = Some (Dir es) ∧ (nm, n) ∈ es ∧
             p = joinpath d nm ∧ is_file w p = true ∧ supported p.
Proof.
  rewrite elem_of_collect_flat. unfold iterdir. split.
  - intros (Hin & Hfile & Hsup).
    destruct (lookup_path w d) as [[c|es]|]; simpl in Hin;
      try by apply elem_of_nil in Hin.
    apply list_elem_of_In, in_map_iff in Hin as ([nm n] & <- & Hin).
    exists es, nm, n. split_and!; try done. by apply list_elem_of_In.
  - intros (es & nm & n & -> & Hin & -> & Hfile & Hsup). split; [|done].
    by apply elem_of_iterdir_node with n.
Qed.

Lemma collect_recursive_exact w d p :
  p ∈ collect w d true ↔
  ∃ n rel m, lookup_path w d = Some n ∧ descends n rel m ∧
             p = d ++ rel ∧ supported p.
Proof.
  rewrite elem_of_collect_recursive. unfold rglob. split.
  - intros (Hin & Hsup). destruct (lookup_path w d) as [n|];
      [|by apply elem_of_nil in Hin].
    apply elem_of_rglob_node in Hin as (rel & m & Hd & ->). eauto 10.
  - intros (n & rel & m & -> & Hd & -> & Hsup). split; [|done].
    apply elem_of_rglob_node. eauto.
Qed.

Lemma bare_extension_not_supported p : name p ∈ SUPPORTED_EXTS → ¬ supported p.
Proof.
  unfold supported, suffix, SUPPORTED_EXTS. intros Hn.
  rewrite !elem_of_union, !elem_of_singleton in Hn.
  destruct Hn as [[[-> | ->] | ->] | ->]; vm_compute; congruence.
Qed.




Ltac split_names :=
  repeat match goal with
    | |- context [String.eqb ?x ?y] =>
        destruct (String.eqb_spec x y); subst; simpl; try done
  end.




(** C2. Recursive mode collects a directory: in the sample world the
    folder [images/album.png] is not a regular file, yet
    [collect ... recursive=True] returns it between [a.jpg] and [b.png];
    the non-recursive branch, which asks [is_file], leaves it out. *)
Theorem C2_recursive_mode_collects_a_directory :
  is_dir sample_world ["images"] = true ∧
  is_file sample_world ["images"; "album.png"] = false ∧
  collect sample_world ["images"] true =
    [["images"; "a.jpg"]; ["images"; "album.png"];
     ["images"; "b.png"]; ["images"; "photo.v2.jpg"]] ∧
  collect sample_world ["images"] false =
    [["images"; "a.jpg"]; ["images"; "b.png"]; ["images"; "photo.v2.jpg"]] ∧
  cells (document sample_world recursive_args) !! B 3
    = Some "[ERROR reading image] album.png".
Proof. by split_and!. Qed.



(** C10. The final suffix decides. A path whose whole name is one of the
    four extensions (such as [.png] or [.jpg]) has an empty suffix and is
    collected in neither mode. A regular file [photo.v2.jpg] in the input
    directory is collected in both modes; its stem drops the final
    extension only, so the name written for it is [photo.v2]. *)
Theorem C10_final_suffix_decides (w : world) (d : Path) (rec : bool) (ts : Z) :
  (∀ p, name p ∈ SUPPORTED_EXTS → suffix p = "" ∧ p ∉ collect w d rec) ∧
  (is_file w (joinpath d "photo.v2.jpg") = true →
     joinpath d "photo.v2.jpg" ∈ collect w d rec) ∧
  suffix (joinpath d "photo.v2.jpg") = ".jpg" ∧
  stem (joinpath d "photo.v2.jpg") = "photo.v2" ∧
  (is_Some (render w ts (joinpath d "photo.v2.jpg")) →
     row_text w ts (joinpath d "photo.v2.jpg") = "photo.v2").
Proof.
  assert (name (joinpath d "photo.v2.jpg") = "photo.v2.jpg") as Hname
    by by apply name_joinpath.
  assert (stem (joinpath d "photo.v2.jpg") = "photo.v2") as Hstem
    by (unfold stem; by rewrite Hname).
  split_and!.
  - intros p Hp. split.
    + unfold suffix, SUPPORTED_EXTS in *.
      rewrite !elem_of_union, !elem_of_singleton in Hp.
      by destruct Hp as [[[-> | ->] | ->] | ->].
    + intros Hin%collect_supported. by apply bare_extension_not_supported in Hin.
  - intros Hfile. apply collect_child_file; [done|done|].
    unfold supported, suffix. rewrite Hname. by vm_compute.
  - unfold suffix. by rewrite Hname.
  - done.
  - intros [thumb Hr]. unfold row_text. by rewrite Hr.
Qed.

Lemma C10_final_suffix_decides_witness :
  is_file sample_world (joinpath ["images"] "photo.v2.jpg") = true ∧
  joinpath ["images"] "photo.v2.jpg" ∈ collect sample_world ["images"] false.
Proof.
  split; [reflexivity|].
  exact (proj1 (proj2 (C10_final_suffix_decides sample_world ["images"] false 100))
           eq_refl).
Defined.

(** ** File names and time stamps *)

Section Names.

Lemma string_length_app (s t : string) :
  String.length (s +:+ t) = (String.length s + String.length t)%nat.
Proof. induction s as [|a s IH]; simpl; [done|]. by rewrite IH. Qed.

Lemma take_drop n s : Str.take n s +:+ Str.drop n s = s.
Proof.
  revert s. induction n as [|n IH]; intros [|a s]; simpl; try done.
  exact (f_equal (String a) (IH s)).
Qed.

Lemma string_app_empty (s : string) : s +:+ "" = s.
Proof.
  induction s as [|a s IH]; [done|]. exact (f_equal (String a) IH).
Qed.

(** A name is its stem followed by its suffix. *)
Lemma stem_suffix nm : stem_of nm +:+ suffix_of nm = nm.
Proof.
  unfold stem_of, suffix_of.
  destruct ((0 <? Str.rfind "." nm) && (Str.rfind "." nm <? Str.len nm - 1)).
  - apply take_drop.
  - apply string_app_empty.
Qed.







End Names.



(** ** The thumbnail *)

Section Thumbnail.

Local Open Scope Q_scope.

Lemma round_aspect_bounds (q : Q) (key : Z → Q) :
  0 < q →
  (1 ≤ PIL.round_aspect q key)%Z ∧
  (PIL.round_aspect q key ≤ Z.max (Qceiling q) 1)%Z ∧
  Qabs (inject_Z (PIL.round_aspect q key) - q) < 1.
Proof.
  intros Hq. unfold PIL.round_aspect.
  pose proof (Qfloor_le q) as Hf1. pose proof (Qlt_floor q) as Hf2.
  pose proof (Qle_ceiling q) as Hc1. pose proof (Qceiling_lt q) as Hc2.
  rewrite inject_Z_plus in Hf2. unfold Z.sub in Hc2. rewrite inject_Z_plus in Hc2.
  change (inject_Z 1) with 1 in Hf2.
  change (inject_Z (- (1))%Z) with (- (1)) in Hc2.
  set (f := Qfloor q) in *. set (c := Qceiling q) in *. clearbody f c.
  assert (0 ≤ f)%Z as Hf0.
  { apply Z.lt_succ_r. rewrite Zlt_Qlt. unfold Z.succ. rewrite inject_Z_plus.
    change (inject_Z 1) with 1. change (inject_Z 0) with 0. lra. }
  assert (1 ≤ c)%Z as Hc0.
  { apply (Z.lt_pred_le 1). rewrite Zlt_Qlt. change (inject_Z (Z.pred 1)) with 0. lra. }
  assert (f ≤ c)%Z as Hfc.
  { rewrite Zle_Qle. lra. }
  split; [lia|].
  destruct (Qle_bool (key f) (key c)).
  - split; [lia|]. apply Qabs_Qlt_condition.
    destruct (decide (1 ≤ f)%Z) as [H1|H1].
    + rewrite Z.max_l by lia. lra.
    + assert (f = 0%Z) as Hf by lia. rewrite Hf in *.
      rewrite Z.max_r by lia. change (inject_Z 0) with 0 in *.
      change (inject_Z 1) with 1. lra.
  - split; [lia|]. apply Qabs_Qlt_condition.
    rewrite Z.max_l by lia. lra.
Qed.

Lemma aspect_facts (w h : Z) :
  (0 < w)%Z → (0 < h)%Z →
  0 < inject_Z w ∧ 0 < inject_Z h ∧
  0 < inject_Z w / inject_Z h ∧
  inject_Z w / inject_Z h * inject_Z h == inject_Z w.
Proof.
  intros Hw Hh. rewrite Zlt_Qlt in Hw, Hh.
  change (inject_Z 0) with 0 in *.
  split_and!; try done.
  - apply Qlt_shift_div_l; [done|]. lra.
  - field. lra.
Qed.

Lemma thumbnail_fits (w h ts w' h' : Z) :
  (0 < w)%Z → (0 < h)%Z →
  PIL.thumbnail (w, h) (ts, ts) = Some (w', h') →
  (0 < ts)%Z ∧ (1 ≤ w' ≤ ts)%Z ∧ (1 ≤ h' ≤ ts)%Z ∧ (w' ≤ w)%Z ∧ (h' ≤ h)%Z ∧
  ((w' = w ∧ h' = h) ∨
   (h' = ts ∧
    Qabs (inject_Z w' - inject_Z ts * (inject_Z w / inject_Z h)) < 1) ∨
   (w' = ts ∧
    Qabs (inject_Z h' - inject_Z ts / (inject_Z w / inject_Z h)) < 1)).
Proof.
  intros Hw Hh.
  destruct (aspect_facts w h Hw Hh) as (HW & HH & Ha & HaH).
  unfold PIL.thumbnail, PIL.preserve_aspect_ratio.
  destruct ((w <=? ts)%Z && (h <=? ts)%Z) eqn:Hfit.
  { intros [= <- <-]. apply andb_true_iff in Hfit as [?%Z.leb_le ?%Z.leb_le].
    split_and!; lia. }
  assert (¬ (w ≤ ts ∧ h ≤ ts)%Z) as Hbig.
  { intros [?%Z.leb_le ?%Z.leb_le]. rewrite andb_false_iff in Hfit.
    destruct Hfit; congruence. }
  clear Hfit. rewrite (proj2 (Z.eqb_neq h 0)) by lia.
  destruct (Z.eqb_spec ts 0) as [|Hts0]; [done|].
  set (a := inject_Z w / inject_Z h) in *.
  set (W := inject_Z w) in *. set (H := inject_Z h) in *.
  assert (inject_Z ts / inject_Z ts == 1) as Hone.
  { field. intros Hz. apply Hts0. rewrite <- (Qfloor_Z ts), <- (Qfloor_Z 0).
    by rewrite Hz. }
  destruct (Qle_bool a (inject_Z ts / inject_Z ts)) eqn:Hle.
  - apply Qle_bool_iff in Hle. rewrite Hone in Hle.
    assert (w ≤ h)%Z as Hwh.
    { rewrite Zle_Qle. fold W H. nra. }
    match goal with
    | |- context [PIL.round_aspect ?q ?k] => set (r := PIL.round_aspect q k)
  end.
    intros Hres.
    assert ((w', h') = (r, ts) ∧ (1 ≤ ts)%Z) as [[= -> ->] Hts].
    { simpl in Hres. case_bool_decide as Heq.
      - injection Hres as <- <-. split; [done|]. injection Heq as _ <-. lia.
      - destruct ((r <? 1)%Z || (ts <? 1)%Z) eqn:Hlow; [done|].
        apply orb_false_iff in Hlow as [_ ?%Z.ltb_ge].
        by injection Hres as <- <-. }
    assert (1 <= inject_Z ts) as HT.
    { change 1 with (inject_Z 1). by rewrite <- Zle_Qle. }
    assert (inject_Z ts < H) as HTH.
    { unfold H. rewrite <- Zlt_Qlt. lia. }
    assert (0 < inject_Z ts * a) as Hpos by nra.
    destruct (round_aspect_bounds (inject_Z ts * a)
                (λ n, Qabs (a - inject_Z n / inject_Z ts)) Hpos)
      as (Hr1 & Hr2 & Hr3).
    fold r in Hr1, Hr2, Hr3.
    assert (Qceiling (inject_Z ts * a) ≤ ts)%Z as Hc1.
    { rewrite <- (Qceiling_Z ts) at 2. apply Qceiling_resp_le. nra. }
    assert (Qceiling (inject_Z ts * a) ≤ w)%Z as Hc2.
    { rewrite <- (Qceiling_Z w). apply Qceiling_resp_le. fold W. nra. }
    split_and!; try lia. right. left. done.
  - assert (1 < a) as Hgt.
    { apply Qnot_le_lt. intros Hle'. rewrite <- Hone in Hle'.
      apply Qle_bool_iff in Hle'. congruence. }
    assert (Qeq_bool a 0 = false) as ->.
    { apply not_true_iff_false. intros Hz%Qeq_bool_eq. rewrite Hz in Hgt. lra. }
    assert (h < w)%Z as Hwh.
    { rewrite Zlt_Qlt. fold W H. nra. }
    match goal with
    | |- context [PIL.round_aspect ?q ?k] => set (r := PIL.round_aspect q k)
  end.
    intros Hres.
    assert ((w', h') = (ts, r) ∧ (1 ≤ ts)%Z) as [[= -> ->] Hts].
    { simpl in Hres. case_bool_decide as Heq.
      - injection Hres as <- <-. split; [done|]. injection Heq as <- _. lia.
      - destruct ((ts <? 1)%Z || (r <? 1)%Z) eqn:Hlow; [done|].
        apply orb_false_iff in Hlow as [?%Z.ltb_ge _].
        by injection Hres as <- <-. }
    assert (1 <= inject_Z ts) as HT.
    { change 1 with (inject_Z 1). by rewrite <- Zle_Qle. }
    assert (inject_Z ts < W) as HTW.
    { unfold W. rewrite <- Zlt_Qlt. lia. }
    set (q := inject_Z ts / a) in *.
    assert (q * a == inject_Z ts) as Hqa.
    { unfold q. field. lra. }
    assert (0 < q) as Hpos.
    { unfold q. apply Qlt_shift_div_l; lra. }
    destruct (round_aspect_bounds q
                (λ n, if (n =? 0)%Z then 0
                      else Qabs (a - inject_Z ts / inject_Z n)) Hpos)
      as (Hr1 & Hr2 & Hr3).
    fold r in Hr1, Hr2, Hr3.
    assert (Qceiling q ≤ ts)%Z as Hc1.
    { rewrite <- (Qceiling_Z ts) at 1. apply Qceiling_resp_le. nra. }
    assert (Qceiling q ≤ h)%Z as Hc2.
    { rewrite <- (Qceiling_Z h). apply Qceiling_resp_le. fold H.
      assert (q * W == inject_Z ts * H) as HqW.
      { rewrite <- HaH, <- Hqa. ring. }
      nra. }
    split_and!; try lia. right. right. done.
Qed.

Lemma round_aspect_positive q key : (1 ≤ PIL.round_aspect q key)%Z.
Proof. unfold PIL.round_aspect. lia. Qed.

Lemma thumbnail_total (w h ts : Z) :
  (0 < w)%Z → (0 < h)%Z → (0 < ts)%Z →
  is_Some (PIL.thumbnail (w, h) (ts, ts)).
Proof.
  intros Hw Hh Hts.
  destruct (aspect_facts w h Hw Hh) as (HW & HH & Ha & HaH).
  unfold PIL.thumbnail, PIL.preserve_aspect_ratio.
  destruct ((w <=? ts)%Z && (h <=? ts)%Z); [by eexists|].
  rewrite (proj2 (Z.eqb_neq h 0)), (proj2 (Z.eqb_neq ts 0)) by lia.
  destruct (Qle_bool _ _).
  - simpl. case_bool_decide; [by eexists|].
    rewrite (proj2 (Z.ltb_ge _ 1) (round_aspect_positive _ _)).
    rewrite (proj2 (Z.ltb_ge ts 1)) by lia. by eexists.
  - assert (Qeq_bool (inject_Z w / inject_Z h) 0 = false) as ->.
    { apply not_true_iff_false. intros Hz%Qeq_bool_eq. rewrite Hz in Ha. lra. }
    simpl. case_bool_decide; [by eexists|].
    rewrite (proj2 (Z.ltb_ge _ 1) (round_aspect_positive _ _)).
    rewrite (proj2 (Z.ltb_ge ts 1)) by lia. by eexists.
Qed.

End Thumbnail.

(** C4. For a file that decodes to a picture of [width] by [height]
    pixels, the thumbnail the loop embeds fits the [thumb_size] square on
    both axes, is no larger than the original on either axis (an image
    already inside the square is kept as it is), and keeps the aspect
    ratio within rounding: the scaled axis differs from the exact
    proportional value by less than one pixel. A positive [thumb_size]
    always yields a thumbnail; with [thumb_size <= 0] none is produced. *)
Theorem C4_thumbnail_within_box
    (wld : world) (ts : Z) (fp : Path) (width height : Z) :
  lookup_path wld fp = Some (File (Picture width height)) →
  0 < width → 0 < height →
  (0 < ts → is_Some (render wld ts fp)) ∧
  (ts ≤ 0 → render wld ts fp = None) ∧
  ∀ w' h', render wld ts fp = Some (w', h') →
    1 ≤ w' ≤ ts ∧ 1 ≤ h' ≤ ts ∧ w' ≤ width ∧ h' ≤ height ∧
    ((w' = width ∧ h' = height) ∨
     (h' = ts ∧
      (Qabs (inject_Z w' - inject_Z ts * (inject_Z width / inject_Z height))
         < 1)%Q) ∨
     (w' = ts ∧
      (Qabs (inject_Z h' - inject_Z ts / (inject_Z width / inject_Z height))
         < 1)%Q)).
Proof.
  intros Hfile Hw Hh. unfold render. rewrite Hfile. split_and!.
  - by apply thumbnail_total.
  - intros Hts. destruct (PIL.thumbnail _ _) as [[w' h']|] eqn:Ht; [|done].
    apply thumbnail_fits in Ht; [lia|done|done].
  - intros w' h' Ht. apply thumbnail_fits in Ht; [|done|done]. tauto.
Qed.

Lemma C4_thumbnail_within_box_witness :
  lookup_path sample_world ["images"; "b.png"]
    = Some (File (Picture 640 480)) ∧
  0 < 640 ∧ 0 < 480 ∧
  render sample_world 100 ["images"; "b.png"] = Some (100, 75) ∧
  1 ≤ 100 ≤ 100 ∧ 1 ≤ 75 ≤ 100.
Proof.
  assert (0 < 640) as Hw by lia. assert (0 < 480) as Hh by lia.
  pose proof (proj2 (proj2 (C4_thumbnail_within_box sample_world 100
    ["images"; "b.png"] 640 480 eq_refl Hw Hh)) 100 75 eq_refl) as Hfit.
  split_and!;
    [reflexivity | exact Hw | exact Hh | reflexivity
    | exact (proj1 (proj1 Hfit)) | exact (proj2 (proj1 Hfit))
    | exact (proj1 (proj1 (proj2 Hfit))) | exact (proj2 (proj1 (proj2 Hfit)))].
Defined.

(** * Further properties of [main] *)

Section Lowercase.










End Lowercase.

(** X1. Without [--recursive] the collector returns exactly the entries
    of the input directory that are regular files and whose lower-cased
    final suffix is one of the four supported extensions. *)
Theorem X1_flat_collection_is_exact (w : world) (d p : Path) :
  p ∈ collect w d false ↔
  ∃ es nm n,
    lookup_path w d = Some (Dir es) ∧ (nm, n) ∈ es ∧ p = joinpath d nm ∧
    is_file w p = true ∧ Str.lower (suffix p) ∈ SUPPORTED_EXTS.
Proof.
  rewrite elem_of_collect_flat. unfold iterdir, supported. split.
  - intros (Hin & Hfile & Hsup).
    destruct (lookup_path w d) as [[c|es]|]; simpl in Hin;
      try by apply elem_of_nil in Hin.
    apply list_elem_of_In, in_map_iff in Hin as ([nm n] & <- & Hin).
    exists es, nm, n. split_and!; try done. by apply list_elem_of_In.
  - intros (es & nm & n & -> & Hin & -> & Hfile & Hsup). split; [|done].
    by apply elem_of_iterdir_node with n.
Qed.

(** X2. With [--recursive] the collector returns exactly the proper
    descendants of the input directory, at any depth, whose lower-cased
    final suffix is supported; what a descendant is (file or directory) is
    not asked. *)
Theorem X2_recursive_collection_is_exact (w : world) (d p : Path) :
  p ∈ collect w d true ↔
  ∃ n rel m,
    lookup_path w d = Some n ∧ descends n rel m ∧ p = d ++ rel ∧
    Str.lower (suffix p) ∈ SUPPORTED_EXTS.
Proof.
  rewrite elem_of_collect_recursive. unfold rglob, supported. split.
  - intros (Hin & Hsup). destruct (lookup_path w d) as [n|];
      [|by apply elem_of_nil in Hin].
    apply elem_of_rglob_node in Hin as (rel & m & Hd & ->). eauto 10.
  - intros (n & rel & m & -> & Hd & -> & Hsup). split; [|done].
    apply elem_of_rglob_node. eauto.
Qed.


(** X4. Whatever the files are, the saved sheet keeps the layout set up
    before the loop: it is titled [Inventory], row 1 holds [Photo] and
    [Temporary Name], the panes are frozen at [A2], columns A and B are
    18 and 40 wide, and column A holds no text below the header. *)
Theorem X4_sheet_layout_survives_the_loop
    (w : world) (a : args) (p : Path) (doc : worksheet) :
  Save p doc ∈ effects (main w a) →
  title doc = "Inventory" ∧
  cells doc !! A 1 = Some "Photo" ∧
  cells doc !! B 1 = Some "Temporary Name" ∧
  freeze_panes doc = Some (A 2) ∧
  column_width doc !! 1 = Some 18 ∧
  column_width doc !! 2 = Some 40 ∧
  (∀ r, r ≠ 1 → cells doc !! A r = None).
Proof.
  intros [_ ->]%main_saved. unfold document.
  set (ts := thumb_size a). set (files := collect w (input a) (recursive a)).
  destruct (run_rest w ts files prepare_workbook 2) as (Ht & Hf & Hc).
  rewrite <- fill_run in Ht, Hf, Hc. cbv zeta in Ht, Hf, Hc.
  rewrite Ht, Hf, Hc. unfold A, B. rewrite !fill_cells, !header_cells.
  rewrite (bool_decide_false (1 = 2)) by lia.
  rewrite (bool_decide_true (2 = 2)) by lia.
  replace (owner files 2 1) with (@None Path)
    by (unfold owner; by rewrite bool_decide_false by lia).
  split_and!; try done.
  intros r Hr. rewrite fill_cells, header_cells.
  rewrite (bool_decide_false (1 = 2)) by lia.
  by rewrite !bool_decide_false by lia.
Qed.

Lemma X4_sheet_layout_survives_the_loop_witness :
  Save sample_output (document sample_world sample_args)
    ∈ effects (main sample_world sample_args) ∧
  title (document sample_world sample_args) = "Inventory".
Proof.
  pose proof (reaches_save_saved _ _ _ sample_reaches_save) as Hsaved.
  split; [exact Hsaved|].
  exact (proj1 (X4_sheet_layout_survives_the_loop _ _ _ _ Hsaved)).
Defined.

Section Pictures.

Variable w : world.
Variable ts : Z.



End Pictures.



(** X6. A run ends with exit status 0 exactly when it saved the document,
    and it prints to standard output only then: the two report lines,
    whose count is the number of collected files, failed ones included. *)
Theorem X6_exit_zero_means_saved (w : world) (a : args) :
  (status (main w a) = Exit 0 ↔ ∃ p doc, Save p doc ∈ effects (main w a)) ∧
  (stdout (main w a) ≠ [] ↔ status (main w a) = Exit 0) ∧
  (∀ p doc, Save p doc ∈ effects (main w a) →
     stdout (main w a) =
       ["Excel created: " +:+ str (resolve w p);
        "Images processed: " +:+
          Str.decimal (length (collect w (input a) (recursive a)))]).
Proof.
  assert (∀ p doc, Save p doc ∈ effects (main w a) →
            status (main w a) = Exit 0 ∧
            stdout (main w a) =
              ["Excel created: " +:+ str (resolve w p);
               "Images processed: " +:+
                 Str.decimal (length (collect w (input a) (recursive a)))])
    as Hsaved.
  { intros p doc [Hrun _]%main_saved.
    destruct (main_reaches_save _ _ _ Hrun) as (made & -> & _). done. }
  assert (status (main w a) = Exit 0 → ∃ p doc, Save p doc ∈ effects (main w a))
    as Hzero.
  { unfold main, failed.
    repeat (match goal with
            | |- context [if ?b then _ else _] => destruct b eqn:?
            | |- context [match ?x with Some _ => _ | None => _ end] =>
                destruct x eqn:?
            end; simpl; try done).
    all: intros _; eexists _, _; rewrite ?elem_of_cons, ?list_elem_of_singleton;
      eauto. }
  split_and!.
  - split; [done|]. intros (p & doc & Hs). by apply Hsaved in Hs as [? _].
  - split.
    + unfold main, failed.
      repeat (match goal with
              | |- context [if ?b then _ else _] => destruct b eqn:?
              | |- context [match ?x with Some _ => _ | None => _ end] =>
                  destruct x eqn:?
              end; simpl; try done).
    + intros (p & doc & Hs)%Hzero. apply Hsaved in Hs as [_ ->]. done.
  - intros p doc Hs. by apply Hsaved in Hs as [_ ?].
Qed.


Lemma resolve_output_None (w : world) (a : args) :
  resolve_output w a = None ↔ timestamped a = true ∧ name (output a) = "".
Proof.
  unfold resolve_output, with_name. destruct (timestamped a).
  - destruct (String.eqb_spec (name (output a)) ""); split; try done.
    + intros [_ ?]. done.
  - split; [done|]. by intros [? _].
Qed.

(** X8. Resolving the output path fails in one case only: with
    [--timestamped] and an output path that has no final name (such as
    [.] or [/]), where [with_name] raises [ValueError]. In that case a run
    on a valid input folder ends after the loop with the exception
    uncaught: nothing is saved, no folder is made, nothing is reported on
    standard output. *)
Theorem X8_timestamp_needs_a_file_name (w : world) (a : args) :
  pillow_installed w = true → openpyxl_installed w = true →
  is_dir w (input a) = true →
  timestamped a = true → name (output a) = "" →
  (∀ w' a', resolve_output w' a' = None ↔
            timestamped a' = true ∧ name (output a') = "") ∧
  status (main w a) = Uncaught "ValueError" ∧
  exit_status (status (main w a)) = 1 ∧
  effects (main w a) = [] ∧
  stdout (main w a) = [].
Proof.
  intros Hpil Hxl Hdir Hts Hname.
  split; [apply resolve_output_None|].
  assert (resolve_output w a = None) as Hout by by apply resolve_output_None.
  unfold main, failed.
  rewrite Hpil, Hxl, Hdir, (is_dir_exists _ _ Hdir), Hout. done.
Qed.

Lemma X8_timestamp_needs_a_file_name_witness :
  is_dir sample_world (input nameless_args) = true ∧
  name (output nameless_args) = "" ∧
  effects (main sample_world nameless_args) = [].
Proof.
  split_and!; [reflexivity|reflexivity|].
  exact (proj1 (proj2 (proj2 (proj2
    (X8_timestamp_needs_a_file_name sample_world nameless_args
       eq_refl eq_refl eq_refl eq_refl eq_refl))))).
Defined.

(** X9. A missing library stops the run before anything else: the hint
    for the first missing library (Pillow is tried first) is the only line
    the script itself prints to standard error, the [ImportError] is
    re-raised, and neither the input folder is examined nor anything
    written. *)
Theorem X9_missing_library_is_fatal (w : world) (a : args) :
  pillow_installed w = false ∨ openpyxl_installed w = false →
  stderr (main w a) =
    [if pillow_installed w
     then "ERROR: openpyxl is not installed. Install with: pip install openpyxl"
     else "ERROR: Pillow is not installed. Install with: pip install Pillow"] ∧
  status (main w a) = Uncaught "ImportError" ∧
  effects (main w a) = [] ∧
  stdout (main w a) = [].
Proof.
  intros Hmiss. unfold main, failed.
  destruct (pillow_installed w); simpl; [|done].
  destruct Hmiss as [Hp|Hx]; [done|]. by rewrite Hx.
Qed.

Lemma X9_missing_library_is_fatal_witness :
  (pillow_installed world_without_openpyxl = false ∨
   openpyxl_installed world_without_openpyxl = false) ∧
  is_dir world_without_openpyxl (input missing_args) = false ∧
  stderr (main world_without_openpyxl missing_args) =
    ["ERROR: openpyxl is not installed. Install with: pip install openpyxl"].
Proof.
  assert (pillow_installed world_without_openpyxl = false ∨
          openpyxl_installed world_without_openpyxl = false) as Hmiss
    by (right; reflexivity).
  split_and!; [exact Hmiss|reflexivity|].
  exact (proj1 (X9_missing_library_is_fatal world_without_openpyxl
                  missing_args Hmiss)).
Defined.

Section NoThumbnail.

Lemma render_needs_positive_size (w : world) (ts : Z) (fp : Path) :
  decodes_positive w → ts ≤ 0 → render w ts fp = None.
Proof.
  intros Hpos Hts. unfold render.
  destruct (lookup_path w fp) as [[[width height|]|]|] eqn:Hl; try done.
  destruct (Hpos _ _ _ Hl) as [Hw Hh].
  destruct (PIL.thumbnail _ _) as [[w' h']|] eqn:Ht; [|done].
  apply thumbnail_fits in Ht; [lia|done|done].
Qed.

Lemma thumbs_none (w : world) (ts : Z) files row :
  (∀ fp, render w ts fp = None) → thumbs w ts files row = [].
Proof.
  intros Hnone. revert row. induction files as [|fp files IH]; intros row;
    simpl; [done|].
  unfold row_thumb. by rewrite Hnone, IH.
Qed.

Lemma sample_decodes_positive : decodes_positive sample_world.
Proof.
  intros p width height. unfold lookup_path. simpl.
  destruct (is_absolute p);
    [destruct (tail p) as [|a [|b [|c q]]]|destruct p as [|a [|b [|c q]]]];
    simpl; unfold find_entry; simpl; try done; split_names;
    intros [= <- <-]; lia.
Qed.

End NoThumbnail.

(** X10. With a [thumb_size] of zero or less no thumbnail can be made, so
    every collected file ends as an error placeholder row: the saved
    document has no picture and no row height, and column B of each data
    row carries the placeholder for its file. The run itself still
    succeeds. *)
Theorem X10_nonpositive_thumb_size_fails_every_file
    (w : world) (a : args) (p : Path) (doc : worksheet) :
  decodes_positive w →
  thumb_size a ≤ 0 →
  Save p doc ∈ effects (main w a) →
  status (main w a) = Exit 0 ∧
  images doc = [] ∧
  row_height doc = ∅ ∧
  ∀ (i : nat) fp,
    collect w (input a) (recursive a) !! i = Some fp →
    cells doc !! B (2 + Z.of_nat i) = Some ("[ERROR reading image] " +:+ name fp).
Proof.
  intros Hpos Hts Hsave.
  assert (∀ fp, render w (thumb_size a) fp = None) as Hnone
    by (intros fp; by apply render_needs_positive_size).
  destruct (main_saved _ _ _ _ Hsave) as [Hrun ->].
  destruct (main_reaches_save _ _ _ Hrun) as (made & Hmain & _).
  split_and!.
  - by rewrite Hmain.
  - unfold document. rewrite fill_images. by apply thumbs_none.
  - apply map_eq. intros r. unfold document. rewrite fill_heights, lookup_empty.
    destruct (owner _ 2 r) as [fp|]; simpl; [|done]. by rewrite Hnone.
  - intros i fp Hi. unfold document, B. rewrite fill_cells.
    rewrite bool_decide_true by done. rewrite (owner_index _ _ _ Hi).
    unfold row_text. by rewrite Hnone.
Qed.

Lemma X10_nonpositive_thumb_size_fails_every_file_witness :
  decodes_positive sample_world ∧
  thumb_size zero_size_args ≤ 0 ∧
  Save sample_output (document sample_world zero_size_args)
    ∈ effects (main sample_world zero_size_args) ∧
  images (document sample_world zero_size_args) = [].
Proof.
  assert (thumb_size zero_size_args ≤ 0) as Hts by (simpl; lia).
  assert (Save sample_output (document sample_world zero_size_args)
            ∈ effects (main sample_world zero_size_args)) as Hsaved.
  { apply reaches_save_saved. repeat split; try reflexivity. left. reflexivity. }
  split_and!; [exact sample_decodes_positive|exact Hts|exact Hsaved|].
  exact (proj1 (proj2 (X10_nonpositive_thumb_size_fails_every_file
                         _ _ _ _ sample_decodes_positive Hts Hsaved))).
Defined.

(** X11. For a positive [thumb_size], a picture that already fits the
    square is embedded at its own size, and a picture that does not fit is
    scaled so that its longer side is exactly [thumb_size]. *)
Theorem X11_longer_side_becomes_thumb_size
    (wld : world) (ts : Z) (fp : Path) (width height : Z) :
  lookup_path wld fp = Some (File (Picture width height)) →
  0 < width → 0 < height → 0 < ts →
  (width ≤ ts ∧ height ≤ ts → render wld ts fp = Some (width, height)) ∧
  (¬ (width ≤ ts ∧ height ≤ ts) →
   ∃ w' h', render wld ts fp = Some (w', h') ∧ Z.max w' h' = ts ∧
            (w' < width ∨ h' < height)).
Proof.
  intros Hfile Hw Hh Hts. unfold render. rewrite Hfile. split.
  - intros [H1 H2]. unfold PIL.thumbnail, PIL.preserve_aspect_ratio.
    by rewrite (proj2 (Z.leb_le _ _) H1), (proj2 (Z.leb_le _ _) H2).
  - intros Hbig.
    destruct (thumbnail_total width height ts Hw Hh Hts) as [[w' h'] Ht].
    exists w', h'. split; [done|].
    apply thumbnail_fits in Ht; [|done|done].
    destruct Ht as (_ & Hw' & Hh' & Hle1 & Hle2 & [[-> ->]|[[-> _]|[-> _]]]); lia.
Qed.

Lemma X11_longer_side_becomes_thumb_size_witness :
  lookup_path sample_world ["images"; "b.png"]
    = Some (File (Picture 640 480)) ∧
  0 < 640 ∧ 0 < 480 ∧ 0 < 100 ∧ ¬ (640 ≤ 100 ∧ 480 ≤ 100) ∧
  ∃ w' h', render sample_world 100 ["images"; "b.png"] = Some (w', h') ∧
           Z.max w' h' = 100 ∧ (w' < 640 ∨ h' < 480).
Proof.
  assert (0 < 640) as Hw by lia. assert (0 < 480) as Hh by lia.
  assert (0 < 100) as Hts by lia.
  assert (¬ (640 ≤ 100 ∧ 480 ≤ 100)) as Hbig by lia.
  split_and!; [reflexivity|exact Hw|exact Hh|exact Hts|exact Hbig|].
  exact (proj2 (X11_longer_side_becomes_thumb_size sample_world 100
                  ["images"; "b.png"] 640 480 eq_refl Hw Hh Hts) Hbig).
Defined.

Section StemAndSuffix.

Lemma length_lower s : String.length (Str.lower s) = String.length s.
Proof. induction s as [|a s IH]; simpl; [done|]. by rewrite IH. Qed.

Lemma take_nonempty n s :
  (0 < n)%nat → s ≠ "" → Str.take n s ≠ "".
Proof. destruct n, s; simpl; intros Hn Hs; try done; lia. Qed.

(** A name with a suffix has a stem: the dot that starts the suffix is
    not the first character. *)
Lemma suffix_gives_stem nm : suffix_of nm ≠ "" → stem_of nm ≠ "".
Proof.
  unfold suffix_of, stem_of.
  destruct ((0 <? Str.rfind "." nm) && (Str.rfind "." nm <? Str.len nm - 1))
    eqn:Hc; [|done].
  intros _. apply andb_true_iff in Hc as [Hi%Z.ltb_lt _].
  apply take_nonempty; [lia|]. intros ->. simpl in Hi. lia.
Qed.

Lemma supported_suffix_length s :
  Str.lower s ∈ SUPPORTED_EXTS → (4 ≤ String.length s ≤ 5)%nat.
Proof.
  intros Hs. rewrite <- (length_lower s). unfold SUPPORTED_EXTS in Hs.
  rewrite !elem_of_union, !elem_of_singleton in Hs.
  destruct Hs as [[[-> | ->] | ->] | ->]; simpl; lia.
Qed.

End StemAndSuffix.

(** X12. For every collected path the name written on success is not
    empty, and it is the file name with its final extension cut off:
    stem followed by suffix gives the name back, and the suffix is a dot
    plus three or four characters that lower-case to a supported
    extension. *)
Theorem X12_temporary_name_is_name_without_extension
    (w : world) (d : Path) (rec : bool) (p : Path) :
  p ∈ collect w d rec →
  stem p ≠ "" ∧
  stem p +:+ suffix p = name p ∧
  Str.lower (suffix p) ∈ SUPPORTED_EXTS ∧
  (4 ≤ String.length (suffix p) ≤ 5)%nat ∧
  (String.length (stem p) + String.length (suffix p))%nat
    = String.length (name p).
Proof.
  intros Hsup%collect_supported. unfold supported in Hsup.
  pose proof (supported_suffix_length _ Hsup) as Hlen.
  assert (stem p +:+ suffix p = name p) as Hparts
    by (unfold stem, suffix; apply stem_suffix).
  split_and!; try done; try lia.
  - unfold stem. apply suffix_gives_stem. fold (suffix p).
    intros Hempty. rewrite Hempty in Hlen. simpl in Hlen. lia.
  - by rewrite <- Hparts, string_length_app.
Qed.

Lemma X12_temporary_name_is_name_without_extension_witness :
  ["images"; "photo.v2.jpg"] ∈ collect sample_world ["images"] false ∧
  stem ["images"; "photo.v2.jpg"] +:+ suffix ["images"; "photo.v2.jpg"]
    = "photo.v2.jpg".
Proof.
  assert (["images"; "photo.v2.jpg"] ∈ collect sample_world ["images"] false)
    as Hin.
  { apply (collect_child_file sample_world ["images"] "photo.v2.jpg" false);
      [discriminate|reflexivity|by vm_compute]. }
  split; [exact Hin|].
  exact (proj1 (proj2 (X12_temporary_name_is_name_without_extension
                         _ _ _ _ Hin))).
Defined.

(** X13. Only regular files can render. Without [--recursive] every
    collected path is a regular file; with it, a collected path that is
    not one (a folder named like a picture) always ends as a placeholder
    row: the error text in column B, no picture and no row height. *)
Theorem X13_collected_folder_becomes_placeholder_row
    (w : world) (a : args) (p : Path) (doc : worksheet) (i : nat) (fp : Path) :
  Save p doc ∈ effects (main w a) →
  collect w (input a) (recursive a) !! i = Some fp →
  (recursive a = false → is_file w fp = true) ∧
  (is_file w fp = false →
     cells doc !! B (2 + Z.of_nat i) = Some ("[ERROR reading image] " +:+ name fp) ∧
     (∀ img c, (img, (2 + Z.of_nat i, c)) ∉ images doc) ∧
     row_height doc !! (2 + Z.of_nat i) = None).
Proof.
  intros [_ ->]%main_saved Hi. split.
  - intros Hrec. rewrite Hrec in Hi.
    apply list_elem_of_lookup_2, elem_of_collect_flat in Hi. tauto.
  - intros Hfile.
    assert (render w (thumb_size a) fp = None) as Hnone.
    { unfold render, is_file in *.
      by destruct (lookup_path w fp) as [[]|]. }
    unfold document. split_and!.
    + unfold B. rewrite fill_cells, bool_decide_true by done.
      rewrite (owner_index _ _ _ Hi). unfold row_text. by rewrite Hnone.
    + intros img c. rewrite fill_images, elem_of_thumbs.
      rewrite (owner_index _ _ _ Hi). intros (_ & fq & [= <-] & Hr). congruence.
    + rewrite fill_heights, (owner_index _ _ _ Hi). simpl. by rewrite Hnone.
Qed.

Lemma X13_collected_folder_becomes_placeholder_row_witness :
  Save sample_output (document sample_world recursive_args)
    ∈ effects (main sample_world recursive_args) ∧
  collect sample_world (input recursive_args) (recursive recursive_args) !! 1%nat
    = Some ["images"; "album.png"] ∧
  is_file sample_world ["images"; "album.png"] = false ∧
  row_height (document sample_world recursive_args) !! 3 = None.
Proof.
  assert (Save sample_output (document sample_world recursive_args)
            ∈ effects (main sample_world recursive_args)) as Hsaved.
  { apply reaches_save_saved. repeat split; try reflexivity. left. reflexivity. }
  split_and!; [exact Hsaved|reflexivity|reflexivity|].
  exact (proj2 (proj2 (proj2 (X13_collected_folder_becomes_placeholder_row
           sample_world recursive_args sample_output _ 1 ["images"; "album.png"]
           Hsaved eq_refl) eq_refl))).
Defined.



Section Ancestors.

Lemma compare_prefix d rel : rel ≠ [] → PurePath.compare d (d ++ rel) = Lt.
Proof.
  intros Hrel. induction d as [|a d IH]; simpl.
  - by destruct rel.
  - by rewrite string_compare_refl.
Qed.

Lemma sorted_lookup_le (l : list Path) (i j : nat) x y :
  StronglySorted PurePath.le l → (i < j)%nat →
  l !! i = Some x → l !! j = Some y → PurePath.le x y.
Proof.
  intros Hs. revert i j x y.
  induction Hs as [|z l Hs IH Hall]; intros i j x y Hij Hi Hj.
  - by rewrite lookup_nil in Hi.
  - destruct j as [|j]; [lia|]. simpl in Hj. destruct i as [|i].
    + injection Hi as <-. rewrite Forall_forall in Hall.
      apply Hall. by eapply list_elem_of_lookup_2.
    + simpl in Hi. apply (IH i j); [lia|done|done].
Qed.

End Ancestors.

(** X15. Rows follow the folder structure: a path is smaller than every
    path below it, so when a folder and something inside it are both
    collected, the folder's row comes first. *)
Theorem X15_folder_row_precedes_its_contents
    (w : world) (d : Path) (rec : bool) (i j : nat) (p rel : Path) :
  rel ≠ [] →
  collect w d rec !! i = Some p →
  collect w d rec !! j = Some (p ++ rel) →
  PurePath.compare p (p ++ rel) = Lt ∧ (i < j)%nat.
Proof.
  intros Hrel Hi Hj.
  pose proof (compare_prefix p rel Hrel) as Hlt. split; [done|].
  destruct (decide (i < j)%nat) as [|Hge]; [done|].
  assert (i ≠ j) as Hne.
  { intros Heq. subst j. pose proof (eq_trans (eq_sym Hi) Hj) as Hp.
    injection Hp as Hp. rewrite <- (app_nil_r p) in Hp at 1.
    apply app_inv_head in Hp. by subst rel. }
  assert (PurePath.le (p ++ rel) p) as Hle.
  { apply (sorted_lookup_le (collect w d rec) j i);
      [apply collect_ordered|lia|done|done]. }
  unfold PurePath.le in Hle. rewrite compare_antisym, Hlt in Hle. done.
Qed.

Lemma X15_folder_row_precedes_its_contents_witness :
  ["x.webp"] ≠ [] ∧
  collect nested_world ["images"] true !! 0%nat = Some ["images"; "album.png"] ∧
  collect nested_world ["images"] true !! 1%nat
    = Some (["images"; "album.png"] ++ ["x.webp"]) ∧
  (0 < 1)%nat.
Proof.
  assert (["x.webp"] ≠ @nil string) as Hrel by discriminate.
  split_and!; [exact Hrel|reflexivity|reflexivity|].
  exact (proj2 (X15_folder_row_precedes_its_contents nested_world ["images"]
                  true 0 1 ["images"; "album.png"] ["x.webp"]
                  Hrel eq_refl eq_refl)).
Defined.

(** X16. With the libraries installed and a valid input folder, the
    script itself prints to standard error the warning, exactly when
    nothing was collected, and nothing else: whether the output can later
    be written does not change what it prints. *)
Theorem X16_warning_iff_nothing_collected (w : world) (a : args) :
  pillow_installed w = true → openpyxl_installed w = true →
  is_dir w (input a) = true →
  stderr (main w a) =
    (if bool_decide (collect w (input a) (recursive a) = [])
     then ["WARNING: No supported image files found in: " +:+ str (input a)]
     else []) ∧
  (stderr (main w a) = [] ↔ collect w (input a) (recursive a) ≠ []).
Proof.
  intros Hpil Hxl Hdir.
  assert (stderr (main w a) =
            match collect w (input a) (recursive a) with
            | [] => ["WARNING: No supported image files found in: "
                       +:+ str (input a)]
            | _ => []
            end) as Herr.
  { unfold main, failed.
    rewrite Hpil, Hxl, Hdir, (is_dir_exists _ _ Hdir). simpl.
    destruct (resolve_output w a) as [p|]; simpl; [|done].
    destruct (exists_ w (parent p)); simpl.
    - by destruct (can_save w p).
    - destruct (can_mkdir w (parent p)); simpl; [|done].
      by destruct (can_save w p). }
  rewrite Herr. destruct (collect w (input a) (recursive a)) as [|fp files].
  - split; [done|]. split; done.
  - split; [done|]. split; done.
Qed.

Lemma X16_warning_iff_nothing_collected_witness :
  is_dir world_read_only (input empty_args) = true ∧
  stderr (main world_read_only empty_args) =
    ["WARNING: No supported image files found in: empty"].
Proof.
  split; [reflexivity|].
  exact (proj1 (X16_warning_iff_nothing_collected world_read_only empty_args
                  eq_refl eq_refl eq_refl)).
Defined.
